(** * op-node/node/config.go: the node configuration and its invariant gate

    A shallow embedding of [Config], [Config.LoadPersisted], [Config.Check],
    [MetricsConfig.Check], [ReadDACConfigFromCLI] and [DACConfig.Client].

    The two methods with a pointer receiver run in a small state monad whose
    state holds the configuration they point at, the number of reads the
    persisted-state store has served, and the chronological trace of what the
    method did to its collaborators (calls of their [Check] methods, reads of
    the store, log records).

    The gate is then compared with the list of its twelve checks, each taken
    alone, evaluated fail-fast in the listed order; the statements about the
    gate are made over that list.

    The module [SoulGasToken] embeds the contract of
    packages/contracts-bedrock/src/L2/SoulGasToken.sol: a call is a function
    from the storage to an outcome, a revert leaving the storage as it
    was. *)

From Stdlib Require Import ZArith List Bool String Ascii Lia.
From Stdlib Require Decimal DecimalString DecimalPos DecimalZ.
Import ListNotations.
Local Open Scope string_scope.
Local Open Scope Z_scope.
Local Open Scope list_scope.

Set Implicit Arguments.

(* ------------------------------------------------------------------ *)
(** ** Errors, format arguments and log records *)

(** Names of command-line flags of package [flags] that this file refers to
    through their [.Name]. *)
Inductive Flag : Type :=
| SequencerStoppedFlag
| DACUrlsFlag.

(** A Go [error] other than nil: built by [errors.New] or by [fmt.Errorf].
    A format string is kept together with its arguments, unrendered; the
    argument of a [%w] verb is the wrapped error. *)
Inductive error_value : Type :=
| errors_New (msg : string)
| fmt_Errorf (format : string) (args : list fmt_arg)
with fmt_arg : Type :=
| arg_uint64 (n : Z)
| arg_string (s : string)
| arg_error (e : error_value)
| arg_flag_Name (f : Flag).

(** The Go type [error]: [None] is nil. *)
Definition error : Type := option error_value.

(** [errors.Unwrap]: the error wrapped by the [%w] of a [fmt.Errorf]. *)
Definition errors_Unwrap (e : error_value) : error :=
  match e with
  | fmt_Errorf _ [arg_error inner] => Some inner
  | _ => None
  end.

Inductive Lvl : Type := LvlWarn | LvlInfo.

(** The logger a record goes to: the [log.Logger] handed to the method, or
    the root logger behind the package-level [log.Warn]. *)
Inductive Logger : Type := logger_param | logger_root.

Record log_record : Type := mk_log {
  log_to : Logger;
  log_lvl : Lvl;
  log_format : string;
  log_args : list fmt_arg;
  log_ctx : list (string * bool)
}.

(* ------------------------------------------------------------------ *)
(** ** Sub-configurations *)

(** Interfaces and structs declared in other packages are records of the
    fields this file reads and of what the methods it calls return. *)

Record L1EndpointSetup : Type := { L1EndpointSetup_Check : error }.
Record L2EndpointSetup : Type := { L2EndpointSetup_Check : error }.
Record L1BeaconEndpointSetup : Type := { L1BeaconEndpointSetup_Check : error }.
Record SupervisorEndpointSetup : Type := { SupervisorEndpointSetup_Check : error }.

Record driver_Config : Type := {
  SequencerEnabled : bool;
  SequencerStopped : bool
}.

Record rollup_Config : Type := {
  EcotoneTime : option Z;
  InteropTime : option Z;
  rollup_Config_Check : error;
  IsL2BlobTimeSet : bool
}.

Record p2p_SetupP2P : Type := {
  SetupP2P_Check : error;
  SetupP2P_Disabled : bool
}.

Record oppprof_CLIConfig : Type := { oppprof_CLIConfig_Check : error }.

Record altda_CLIConfig : Type := {
  AltDA_Enabled : bool;
  altda_CLIConfig_Check : error
}.

Record RPCConfig : Type := {
  RPC_ListenAddr : string;
  RPC_ListenPort : Z;
  EnableAdmin : bool
}.

Record MetricsConfig : Type := {
  Enabled : bool;
  ListenAddr : string;
  ListenPort : Z
}.

Record DACConfig : Type := { URLS : list string }.

(** Modelled from the spec: the type [RunningState] and its constants are
    declared with the persisted-state store, outside the files at hand; the
    store's read returns one of unset, started, stopped. *)
Inductive RunningState : Type := StateUnset | StateStarted | StateStopped.

Definition RunningState_eqb (a b : RunningState) : bool :=
  match a, b with
  | StateUnset, StateUnset | StateStarted, StateStarted
  | StateStopped, StateStopped => true
  | _, _ => false
  end.

(** The interface [ConfigPersistence]: [SequencerState k] is the pair
    (state, err) that the store returns to the read it serves after [k]
    earlier ones. *)
Record ConfigPersistence : Type := {
  SequencerState : nat -> RunningState * error
}.

(** [Config]. The field ConfigPersistence is [Persistence] here, its type
    keeping the name. The fields holding functions or capabilities that no
    method of the file touches (P2PSigner, Tracer, Sync, Cancel,
    ConductorRpc) are left out. *)
Record Config : Type := mk_Config {
  L1 : L1EndpointSetup;
  L2 : L2EndpointSetup;
  Beacon : option L1BeaconEndpointSetup;
  Supervisor : option SupervisorEndpointSetup;
  Driver : driver_Config;
  Rollup : rollup_Config;
  RPC : RPCConfig;
  P2P : option p2p_SetupP2P;
  Metrics : MetricsConfig;
  Pprof : oppprof_CLIConfig;
  L1EpochPollInterval : Z;
  Persistence : ConfigPersistence;
  SafeDBPath : string;
  RuntimeConfigReloadInterval : Z;
  RollupHalt : string;
  ConductorEnabled : bool;
  ConductorRpcTimeout : Z;
  AltDA : altda_CLIConfig;
  DAC : option DACConfig
}.

(** The assignment [cfg.Driver.SequencerStopped = stopped]. *)
Definition set_SequencerStopped (stopped : bool) (cfg : Config) : Config :=
  mk_Config (L1 cfg) (L2 cfg) (Beacon cfg) (Supervisor cfg)
    {| SequencerEnabled := SequencerEnabled (Driver cfg);
       SequencerStopped := stopped |}
    (Rollup cfg) (RPC cfg) (P2P cfg) (Metrics cfg) (Pprof cfg)
    (L1EpochPollInterval cfg) (Persistence cfg) (SafeDBPath cfg)
    (RuntimeConfigReloadInterval cfg) (RollupHalt cfg) (ConductorEnabled cfg)
    (ConductorRpcTimeout cfg) (AltDA cfg) (DAC cfg).

(** Record updates used to build and vary configurations in statements. *)
Definition with_DAC (d : option DACConfig) (cfg : Config) : Config :=
  mk_Config (L1 cfg) (L2 cfg) (Beacon cfg) (Supervisor cfg) (Driver cfg)
    (Rollup cfg) (RPC cfg) (P2P cfg) (Metrics cfg) (Pprof cfg)
    (L1EpochPollInterval cfg) (Persistence cfg) (SafeDBPath cfg)
    (RuntimeConfigReloadInterval cfg) (RollupHalt cfg) (ConductorEnabled cfg)
    (ConductorRpcTimeout cfg) (AltDA cfg) d.

Definition with_Beacon (b : option L1BeaconEndpointSetup) (cfg : Config) : Config :=
  mk_Config (L1 cfg) (L2 cfg) b (Supervisor cfg) (Driver cfg)
    (Rollup cfg) (RPC cfg) (P2P cfg) (Metrics cfg) (Pprof cfg)
    (L1EpochPollInterval cfg) (Persistence cfg) (SafeDBPath cfg)
    (RuntimeConfigReloadInterval cfg) (RollupHalt cfg) (ConductorEnabled cfg)
    (ConductorRpcTimeout cfg) (AltDA cfg) (DAC cfg).

Definition with_Persistence (p : ConfigPersistence) (cfg : Config) : Config :=
  mk_Config (L1 cfg) (L2 cfg) (Beacon cfg) (Supervisor cfg) (Driver cfg)
    (Rollup cfg) (RPC cfg) (P2P cfg) (Metrics cfg) (Pprof cfg)
    (L1EpochPollInterval cfg) p (SafeDBPath cfg)
    (RuntimeConfigReloadInterval cfg) (RollupHalt cfg) (ConductorEnabled cfg)
    (ConductorRpcTimeout cfg) (AltDA cfg) (DAC cfg).

Definition with_L1_L2 (l1 l2 : error) (cfg : Config) : Config :=
  mk_Config {| L1EndpointSetup_Check := l1 |} {| L2EndpointSetup_Check := l2 |}
    (Beacon cfg) (Supervisor cfg) (Driver cfg)
    (Rollup cfg) (RPC cfg) (P2P cfg) (Metrics cfg) (Pprof cfg)
    (L1EpochPollInterval cfg) (Persistence cfg) (SafeDBPath cfg)
    (RuntimeConfigReloadInterval cfg) (RollupHalt cfg) (ConductorEnabled cfg)
    (ConductorRpcTimeout cfg) (AltDA cfg) (DAC cfg).

(* ------------------------------------------------------------------ *)
(** ** The pure functions of the file *)

Definition math_MaxUint16 : Z := 65535.

(** [MetricsConfig.Check]. *)
Definition MetricsConfig_Check (m : MetricsConfig) : error :=
  if negb (Enabled m) then None
  else if (ListenPort m <? 0) || (ListenPort m >? math_MaxUint16)
       then Some (errors_New "invalid metrics port")
       else None.

(** [strings.Split(s, sep)] for a one-byte separator: the pieces of [s]
    between the occurrences of [sep], one more piece than occurrences. *)
Fixpoint strings_Split (s : string) (sep : ascii) : list string :=
  match s with
  | EmptyString => [EmptyString]
  | String c rest =>
      if Ascii.eqb c sep then EmptyString :: strings_Split rest sep
      else match strings_Split rest sep with
           | piece :: pieces => String c piece :: pieces
           | [] => [String c EmptyString]
           end
  end.

(** [cli.Context], as far as [c.String(name)] of a flag goes. *)
Record cli_Context : Type := { cli_String : Flag -> string }.

(** [ReadDACConfigFromCLI]. *)
Definition ReadDACConfigFromCLI (c : cli_Context) : option DACConfig :=
  let urls := cli_String c DACUrlsFlag in
  if String.eqb urls EmptyString then None
  else Some {| URLS := strings_Split urls "," |}.

(** [engine.DACClient] as produced by [client.New]. *)
Record DACClient : Type := client_New { client_urls : list string }.

(** [DACConfig.Client]; the receiver may be nil. *)
Definition DACConfig_Client (dacConfig : option DACConfig) : option DACClient :=
  match dacConfig with
  | None => None
  | Some d =>
      if (Z.of_nat (List.length (URLS d)) =? 0) then None
      else Some (client_New (URLS d))
  end.

(** [Config.P2PEnabled]. *)
Definition Config_P2PEnabled (cfg : Config) : bool :=
  match P2P cfg with
  | None => false
  | Some p => negb (SetupP2P_Disabled p)
  end.

(* ------------------------------------------------------------------ *)
(** ** The state monad of the two methods *)

Inductive Callee : Type :=
| call_L1_Check
| call_L2_Check
| call_Beacon_Check
| call_Supervisor_Check
| call_Rollup_Check
| call_Metrics_Check
| call_Pprof_Check
| call_P2P_Check
| call_SequencerState
| call_AltDA_Check.

Inductive Event : Type :=
| Ev_call (c : Callee)
| Ev_log (r : log_record).

Record Env : Type := mk_Env {
  env_cfg : Config;
  env_reads : nat;
  env_trace : list Event
}.

Definition M (A : Type) : Type := Env -> A * Env.

Definition ret {A} (a : A) : M A := fun s => (a, s).

Definition bind {A B} (m : M A) (k : A -> M B) : M B :=
  fun s => let (a, s') := m s in k a s'.

Declare Scope go_scope.
Delimit Scope go_scope with go.

Notation "x <- m ;; k" := (bind m (fun x => k))
  (at level 61, m at next level, right associativity) : go_scope.

(** [if err := m; err != nil { return r }] followed by [k]. *)
Notation "'iferr' err <- m 'return_' r ;; k" :=
  (bind m (fun o => match o with
                    | Some err => ret (Some r)
                    | None => k
                    end))
  (at level 61, err name, m at next level, r at next level,
   right associativity) : go_scope.

(** A block that may return early with an error, followed by [k]. *)
Notation "blk ;;; k" :=
  (bind blk (fun o => match o with
                      | Some e => ret (Some e)
                      | None => k
                      end))
  (at level 61, right associativity) : go_scope.

Definition get_cfg : M Config := fun s => (env_cfg s, s).

Definition put_cfg (cfg : Config) : M unit :=
  fun s => (tt, mk_Env cfg (env_reads s) (env_trace s)).

Definition emit (ev : Event) : M unit :=
  fun s => (tt, mk_Env (env_cfg s) (env_reads s) (env_trace s ++ [ev])).

(** A call of a collaborator's [Check] method. *)
Definition call (c : Callee) (result : error) : M error :=
  fun s => (result, mk_Env (env_cfg s) (env_reads s) (env_trace s ++ [Ev_call c])).

(** [cfg.ConfigPersistence.SequencerState()]: one read of the store. *)
Definition read_SequencerState : M (RunningState * error) :=
  fun s => (SequencerState (Persistence (env_cfg s)) (env_reads s),
            mk_Env (env_cfg s) (S (env_reads s))
                   (env_trace s ++ [Ev_call call_SequencerState])).

Definition log_Warn (to : Logger) (format : string) (args : list fmt_arg)
    (ctx : list (string * bool)) : M unit :=
  emit (Ev_log (mk_log to LvlWarn format args ctx)).

Definition log_Info (to : Logger) (format : string) : M unit :=
  emit (Ev_log (mk_log to LvlInfo format [] [])).

Local Open Scope go_scope.

(* ------------------------------------------------------------------ *)
(** ** [Config.LoadPersisted] *)

Definition Config_LoadPersisted : M error :=
  cfg <- get_cfg ;;
  if negb (SequencerEnabled (Driver cfg)) then ret None
  else
    r <- read_SequencerState ;;
    let (state, err) := r in
    match err with
    | Some e => ret (Some e)
    | None =>
        if negb (RunningState_eqb state StateUnset) then
          let stopped := RunningState_eqb state StateStopped in
          _ <- (if negb (Bool.eqb stopped (SequencerStopped (Driver cfg)))
                then log_Warn logger_param "Overriding %v with persisted state"
                       [arg_flag_Name SequencerStoppedFlag] [("stopped", stopped)]
                else ret tt) ;;
          _ <- put_cfg (set_SequencerStopped stopped cfg) ;;
          ret None
        else
          _ <- log_Info logger_param "No persisted sequencer state loaded" ;;
          ret None
    end.

(* ------------------------------------------------------------------ *)
(** ** [Config.Check] *)

Definition halt_option_ok (h : string) : bool :=
  String.eqb h EmptyString || String.eqb h "major" || String.eqb h "minor"
  || String.eqb h "patch".

Definition altda_beta_notice : string :=
  "Alt-DA Mode is a Beta feature of the MIT licensed OP Stack.  While it has received initial review from core contributors, it is still undergoing testing, and may have bugs or other issues.".

Definition Config_Check : M error :=
  cfg <- get_cfg ;;
  iferr err <- call call_L1_Check (L1EndpointSetup_Check (L1 cfg))
    return_ (fmt_Errorf "l2 endpoint config error: %w" [arg_error err]) ;;
  iferr err <- call call_L2_Check (L2EndpointSetup_Check (L2 cfg))
    return_ (fmt_Errorf "l2 endpoint config error: %w" [arg_error err]) ;;
  (match EcotoneTime (Rollup cfg) with
   | Some t =>
       match Beacon cfg with
       | None =>
           ret (Some (fmt_Errorf
             "the Ecotone upgrade is scheduled (timestamp = %d) but no L1 Beacon API endpoint is configured"
             [arg_uint64 t]))
       | Some b =>
           iferr err <- call call_Beacon_Check (L1BeaconEndpointSetup_Check b)
             return_ (fmt_Errorf "misconfigured L1 Beacon API endpoint: %w" [arg_error err]) ;;
           ret None
       end
   | None => ret None
   end) ;;;
  (match InteropTime (Rollup cfg) with
   | Some t =>
       match Supervisor cfg with
       | None =>
           ret (Some (fmt_Errorf
             "the Interop upgrade is scheduled (timestamp = %d) but no supervisor RPC endpoint is configured"
             [arg_uint64 t]))
       | Some sv =>
           iferr err <- call call_Supervisor_Check (SupervisorEndpointSetup_Check sv)
             return_ (fmt_Errorf "misconfigured supervisor RPC endpoint: %w" [arg_error err]) ;;
           ret None
       end
   | None => ret None
   end) ;;;
  iferr err <- call call_Rollup_Check (rollup_Config_Check (Rollup cfg))
    return_ (fmt_Errorf "rollup config error: %w" [arg_error err]) ;;
  iferr err <- call call_Metrics_Check (MetricsConfig_Check (Metrics cfg))
    return_ (fmt_Errorf "metrics config error: %w" [arg_error err]) ;;
  iferr err <- call call_Pprof_Check (oppprof_CLIConfig_Check (Pprof cfg))
    return_ (fmt_Errorf "pprof config error: %w" [arg_error err]) ;;
  (match P2P cfg with
   | Some p =>
       iferr err <- call call_P2P_Check (SetupP2P_Check p)
         return_ (fmt_Errorf "p2p config error: %w" [arg_error err]) ;;
       ret None
   | None => ret None
   end) ;;;
  (if negb (halt_option_ok (RollupHalt cfg))
   then ret (Some (fmt_Errorf "invalid rollup halting option: %q"
                     [arg_string (RollupHalt cfg)]))
   else ret None) ;;;
  (if ConductorEnabled cfg then
     r <- read_SequencerState ;;
     let (state, _) := r in
     if negb (RunningState_eqb state StateUnset) then
       ret (Some (fmt_Errorf
         "config persistence must be disabled when conductor is enabled" []))
     else if negb (SequencerEnabled (Driver cfg)) then
       ret (Some (fmt_Errorf
         "sequencer must be enabled when conductor is enabled" []))
     else ret None
   else ret None) ;;;
  iferr err <- call call_AltDA_Check (altda_CLIConfig_Check (AltDA cfg))
    return_ (fmt_Errorf "altDA config error: %w" [arg_error err]) ;;
  _ <- (if AltDA_Enabled (AltDA cfg)
        then log_Warn logger_root altda_beta_notice [] []
        else ret tt) ;;
  if SequencerEnabled (Driver cfg) && IsL2BlobTimeSet (Rollup cfg)
     && (match DAC cfg with None => true | Some _ => false end)
  then ret (Some (fmt_Errorf
         "dac.urls must be set for sequencer when l2 blob time is set" []))
  else if (negb (SequencerEnabled (Driver cfg))
           || negb (IsL2BlobTimeSet (Rollup cfg)))
          && (match DAC cfg with None => false | Some _ => true end)
  then ret (Some (fmt_Errorf
         "dac.urls can only be set for sequencer when l2 blob time is set" []))
  else ret None.

Local Close Scope go_scope.

(* ------------------------------------------------------------------ *)
(** ** The gate as an ordered list of checks *)

(** The twelve checks of the gate, in the order the specification lists
    them. *)
Inductive Step : Type :=
| step_L1
| step_L2
| step_Beacon
| step_Supervisor
| step_Rollup
| step_Metrics
| step_Pprof
| step_P2P
| step_Halt
| step_Conductor
| step_AltDA
| step_DAC.

Definition gate_order : list Step :=
  [step_L1; step_L2; step_Beacon; step_Supervisor; step_Rollup; step_Metrics;
   step_Pprof; step_P2P; step_Halt; step_Conductor; step_AltDA; step_DAC].

Definition step_index (st : Step) : nat :=
  match st with
  | step_L1 => 0 | step_L2 => 1 | step_Beacon => 2 | step_Supervisor => 3
  | step_Rollup => 4 | step_Metrics => 5 | step_Pprof => 6 | step_P2P => 7
  | step_Halt => 8 | step_Conductor => 9 | step_AltDA => 10 | step_DAC => 11
  end%nat.

Definition wrap (format : string) (r : error) : error :=
  match r with
  | Some e => Some (fmt_Errorf format [arg_error e])
  | None => None
  end.

(** What one check, taken alone, reports on a configuration whose store has
    served [n] reads: nil when the check holds, its error otherwise. *)
Definition violation (cfg : Config) (n : nat) (st : Step) : error :=
  match st with
  | step_L1 =>
      wrap "l2 endpoint config error: %w" (L1EndpointSetup_Check (L1 cfg))
  | step_L2 =>
      wrap "l2 endpoint config error: %w" (L2EndpointSetup_Check (L2 cfg))
  | step_Beacon =>
      match EcotoneTime (Rollup cfg), Beacon cfg with
      | None, _ => None
      | Some t, None =>
          Some (fmt_Errorf
            "the Ecotone upgrade is scheduled (timestamp = %d) but no L1 Beacon API endpoint is configured"
            [arg_uint64 t])
      | Some _, Some b =>
          wrap "misconfigured L1 Beacon API endpoint: %w"
               (L1BeaconEndpointSetup_Check b)
      end
  | step_Supervisor =>
      match InteropTime (Rollup cfg), Supervisor cfg with
      | None, _ => None
      | Some t, None =>
          Some (fmt_Errorf
            "the Interop upgrade is scheduled (timestamp = %d) but no supervisor RPC endpoint is configured"
            [arg_uint64 t])
      | Some _, Some sv =>
          wrap "misconfigured supervisor RPC endpoint: %w"
               (SupervisorEndpointSetup_Check sv)
      end
  | step_Rollup =>
      wrap "rollup config error: %w" (rollup_Config_Check (Rollup cfg))
  | step_Metrics =>
      wrap "metrics config error: %w" (MetricsConfig_Check (Metrics cfg))
  | step_Pprof =>
      wrap "pprof config error: %w" (oppprof_CLIConfig_Check (Pprof cfg))
  | step_P2P =>
      match P2P cfg with
      | Some p => wrap "p2p config error: %w" (SetupP2P_Check p)
      | None => None
      end
  | step_Halt =>
      if halt_option_ok (RollupHalt cfg) then None
      else Some (fmt_Errorf "invalid rollup halting option: %q"
                   [arg_string (RollupHalt cfg)])
  | step_Conductor =>
      if ConductorEnabled cfg then
        match fst (SequencerState (Persistence cfg) n) with
        | StateUnset =>
            if SequencerEnabled (Driver cfg) then None
            else Some (fmt_Errorf
                   "sequencer must be enabled when conductor is enabled" [])
        | _ => Some (fmt_Errorf
                 "config persistence must be disabled when conductor is enabled" [])
        end
      else None
  | step_AltDA =>
      wrap "altDA config error: %w" (altda_CLIConfig_Check (AltDA cfg))
  | step_DAC =>
      match SequencerEnabled (Driver cfg) && IsL2BlobTimeSet (Rollup cfg),
            DAC cfg with
      | true, None =>
          Some (fmt_Errorf
            "dac.urls must be set for sequencer when l2 blob time is set" [])
      | false, Some _ =>
          Some (fmt_Errorf
            "dac.urls can only be set for sequencer when l2 blob time is set" [])
      | _, _ => None
      end
  end.

(** What a check does to the collaborators when it is evaluated. *)
Definition step_events (cfg : Config) (st : Step) : list Event :=
  match st with
  | step_L1 => [Ev_call call_L1_Check]
  | step_L2 => [Ev_call call_L2_Check]
  | step_Beacon =>
      match EcotoneTime (Rollup cfg), Beacon cfg with
      | Some _, Some _ => [Ev_call call_Beacon_Check]
      | _, _ => []
      end
  | step_Supervisor =>
      match InteropTime (Rollup cfg), Supervisor cfg with
      | Some _, Some _ => [Ev_call call_Supervisor_Check]
      | _, _ => []
      end
  | step_Rollup => [Ev_call call_Rollup_Check]
  | step_Metrics => [Ev_call call_Metrics_Check]
  | step_Pprof => [Ev_call call_Pprof_Check]
  | step_P2P =>
      match P2P cfg with
      | Some _ => [Ev_call call_P2P_Check]
      | None => []
      end
  | step_Halt => []
  | step_Conductor =>
      if ConductorEnabled cfg then [Ev_call call_SequencerState] else []
  | step_AltDA =>
      Ev_call call_AltDA_Check ::
      match altda_CLIConfig_Check (AltDA cfg) with
      | Some _ => []
      | None =>
          if AltDA_Enabled (AltDA cfg)
          then [Ev_log (mk_log logger_root LvlWarn altda_beta_notice [] [])]
          else []
      end
  | step_DAC => []
  end.

(** Fail-fast evaluation of a list of checks: the first error found and the
    checks that were evaluated, the failing one last. *)
Fixpoint run_gate (cfg : Config) (n : nat) (steps : list Step)
  : error * list Step :=
  match steps with
  | [] => (None, [])
  | st :: rest =>
      match violation cfg n st with
      | Some e => (Some e, [st])
      | None => let (r, done) := run_gate cfg n rest in (r, st :: done)
      end
  end.

Definition first_violation (cfg : Config) (n : nat) (steps : list Step) : error :=
  fst (run_gate cfg n steps).

Definition evaluated (cfg : Config) (n : nat) (steps : list Step) : list Step :=
  snd (run_gate cfg n steps).

(** The check an event belongs to. *)
Definition event_step (ev : Event) : Step :=
  match ev with
  | Ev_call call_L1_Check => step_L1
  | Ev_call call_L2_Check => step_L2
  | Ev_call call_Beacon_Check => step_Beacon
  | Ev_call call_Supervisor_Check => step_Supervisor
  | Ev_call call_Rollup_Check => step_Rollup
  | Ev_call call_Metrics_Check => step_Metrics
  | Ev_call call_Pprof_Check => step_Pprof
  | Ev_call call_P2P_Check => step_P2P
  | Ev_call call_SequencerState => step_Conductor
  | Ev_call call_AltDA_Check => step_AltDA
  | Ev_log _ => step_AltDA
  end.

(** The state a method starts from: the configuration, the number of reads
    the store has served so far, and an empty trace. *)
Definition start (cfg : Config) (n : nat) : Env := mk_Env cfg n [].

(** Number of store reads in a trace. *)
Fixpoint reads_in (evs : list Event) : nat :=
  match evs with
  | [] => 0
  | Ev_call call_SequencerState :: rest => S (reads_in rest)
  | _ :: rest => reads_in rest
  end.

(** The events of a whole run of the gate. *)
Definition gate_events (cfg : Config) (n : nat) (steps : list Step) : list Event :=
  flat_map (step_events cfg) (evaluated cfg n steps).

(** [m], run on [cfg], behaves as the fail-fast evaluation of [steps]. *)
Definition runs_as (cfg : Config) (m : M error) (steps : list Step) : Prop :=
  forall n tr,
    m (mk_Env cfg n tr) =
      (first_violation cfg n steps,
       mk_Env cfg (reads_in (gate_events cfg n steps) + n)
              (tr ++ gate_events cfg n steps)).

(** The checks listed before [st], and those listed after it. *)
Definition before (st : Step) : list Step := firstn (step_index st) gate_order.
Definition after (st : Step) : list Step := skipn (S (step_index st)) gate_order.

(** All checks listed before [st] hold. *)
Definition passes_before (cfg : Config) (n : nat) (st : Step) : Prop :=
  forall st', (step_index st' < step_index st)%nat -> violation cfg n st' = None.

(** A run of the gate from [env]: its result and its final state. *)
Definition result_of (env : Env) : error := fst (Config_Check env).
Definition state_after (env : Env) : Env := snd (Config_Check env).
Definition new_events (env : Env) : list Event :=
  gate_events (env_cfg env) (env_reads env) gate_order.

(** The format strings of the errors each check builds. *)
Definition step_formats (st : Step) : list string :=
  match st with
  | step_L1 => ["l2 endpoint config error: %w"]
  | step_L2 => ["l2 endpoint config error: %w"]
  | step_Beacon =>
      ["the Ecotone upgrade is scheduled (timestamp = %d) but no L1 Beacon API endpoint is configured";
       "misconfigured L1 Beacon API endpoint: %w"]
  | step_Supervisor =>
      ["the Interop upgrade is scheduled (timestamp = %d) but no supervisor RPC endpoint is configured";
       "misconfigured supervisor RPC endpoint: %w"]
  | step_Rollup => ["rollup config error: %w"]
  | step_Metrics => ["metrics config error: %w"]
  | step_Pprof => ["pprof config error: %w"]
  | step_P2P => ["p2p config error: %w"]
  | step_Halt => ["invalid rollup halting option: %q"]
  | step_Conductor =>
      ["config persistence must be disabled when conductor is enabled";
       "sequencer must be enabled when conductor is enabled"]
  | step_AltDA => ["altDA config error: %w"]
  | step_DAC =>
      ["dac.urls must be set for sequencer when l2 blob time is set";
       "dac.urls can only be set for sequencer when l2 blob time is set"]
  end.

(** [e] was built by [fmt.Errorf] with one of the formats of check [st]. *)
Definition error_from (st : Step) (e : error_value) : bool :=
  match e with
  | fmt_Errorf f _ => existsb (String.eqb f) (step_formats st)
  | errors_New _ => false
  end.

(* ------------------------------------------------------------------ *)
(** ** Vocabulary of the statements *)

Definition DAC_required (cfg : Config) : bool :=
  SequencerEnabled (Driver cfg) && IsL2BlobTimeSet (Rollup cfg).

Definition DAC_present (cfg : Config) : bool :=
  match DAC cfg with
  | Some _ => true
  | None => false
  end.

(** The consensus-data endpoint is absent, or present with a failing
    [Check]. *)
Definition Beacon_missing_or_invalid (cfg : Config) : Prop :=
  Beacon cfg = None
  \/ exists b e, Beacon cfg = Some b /\ L1BeaconEndpointSetup_Check b = Some e.

(** The gate fails at check [st]: it returns an error built there. *)
Definition fails_at (env : Env) (st : Step) : Prop :=
  exists e, result_of env = Some e /\ error_from st e = true.

(** The state the store reports to the gate's read. *)
Definition persisted_state (env : Env) : RunningState :=
  fst (SequencerState (Persistence (env_cfg env)) (env_reads env)).

(** The answer of the store to the next read. *)
Definition next_answer (env : Env) : RunningState * error :=
  SequencerState (Persistence (env_cfg env)) (env_reads env).

Definition override_notice (stopped : bool) : Event :=
  Ev_log (mk_log logger_param LvlWarn "Overriding %v with persisted state"
            [arg_flag_Name SequencerStoppedFlag] [("stopped", stopped)]).

(* ------------------------------------------------------------------ *)
(** ** Sample configurations *)

(** A store that always answers the same. *)
Definition const_store (answer : RunningState * error) : ConfigPersistence :=
  {| SequencerState := fun _ => answer |}.

(** A configuration whose endpoints, rollup, profiling and alt-DA parts are
    in order, with metrics enabled; the parts the gate's cross checks look at
    are the arguments. *)
Definition sample_cfg (l1 : error) (port : Z) (et : option Z)
    (bc : option L1BeaconEndpointSetup) (se ss blob ce : bool)
    (store : ConfigPersistence) (dac : option DACConfig) : Config :=
  mk_Config
    {| L1EndpointSetup_Check := l1 |}
    {| L2EndpointSetup_Check := None |}
    bc None
    {| SequencerEnabled := se; SequencerStopped := ss |}
    {| EcotoneTime := et; InteropTime := None;
       rollup_Config_Check := None; IsL2BlobTimeSet := blob |}
    {| RPC_ListenAddr := "127.0.0.1"; RPC_ListenPort := 9545;
       EnableAdmin := false |}
    None
    {| Enabled := true; ListenAddr := "0.0.0.0"; ListenPort := port |}
    {| oppprof_CLIConfig_Check := None |}
    384 store EmptyString 600 EmptyString ce 1
    {| AltDA_Enabled := false; altda_CLIConfig_Check := None |}
    dac.

Definition unset_store : ConfigPersistence := const_store (StateUnset, None).

Definition dial_error : error_value := errors_New "expected L1 RPC address".

Definition plain_cfg : Config :=
  sample_cfg None 7300 None None false false false false unset_store None.

Definition store_error : error_value := errors_New "read config file: permission denied".

(** Coordination is enabled, sequencing is enabled, and the store's read
    fails, returning the zero state together with its error. *)
Definition env_unreadable_store : Env :=
  start (sample_cfg None 7300 None None true false false true
           (const_store (StateUnset, Some store_error)) None) 0.

(** The committee configuration is present with no URL, sequencing is
    enabled and the L2 blob time is set. *)
Definition env_empty_URLS : Env :=
  start (sample_cfg None 7300 None None true false true false unset_store
           (Some {| URLS := [] |})) 0.

Definition cli_two_urls : cli_Context :=
  {| cli_String := fun f =>
       match f with
       | DACUrlsFlag => "http://dac-1:8888,http://dac-2:8888"
       | SequencerStoppedFlag => EmptyString
       end |}.

Definition metrics (enabled : bool) (port : Z) : MetricsConfig :=
  {| Enabled := enabled; ListenAddr := "0.0.0.0"; ListenPort := port |}.

(** The six rows of the committee's truth table: sequencer enabled, blob
    time set, DACConfig present. *)
Definition dac_row (se blob : bool) (dac : option DACConfig) : error :=
  fst (Config_Check
         (start (sample_cfg None 7300 None None se false blob false
                   unset_store dac) 0)).

Definition one_url : option DACConfig := Some {| URLS := ["http://dac-1:8888"] |}.

(* ------------------------------------------------------------------ *)
(** ** Further functions of the file and of the libraries it calls *)

(** [strings.Join(elems, sep)]. *)
Fixpoint strings_Join (elems : list string) (sep : string) : string :=
  match elems with
  | [] => EmptyString
  | e :: rest =>
      match rest with
      | [] => e
      | _ :: _ => (e ++ sep ++ strings_Join rest sep)%string
      end
  end.

(** [strings.IndexByte(s, c) >= 0]: the byte [c] occurs in [s]. *)
Fixpoint contains_byte (c : ascii) (s : string) : bool :=
  match s with
  | EmptyString => false
  | String a rest => Ascii.eqb a c || contains_byte c rest
  end.

(** [strings.Count(s, sep)] for a one-byte separator. *)
Fixpoint strings_Count (s : string) (sep : ascii) : nat :=
  match s with
  | EmptyString => 0
  | String a rest =>
      if Ascii.eqb a sep then S (strings_Count rest sep)
      else strings_Count rest sep
  end.

(** A command line whose dac.urls flag holds [urls]. *)
Definition cli_with_urls (urls : string) : cli_Context :=
  {| cli_String := fun f =>
       match f with
       | DACUrlsFlag => urls
       | SequencerStoppedFlag => EmptyString
       end |}.

(** The verb [%d] of package fmt on an int: the decimal digits, after a
    minus sign when the number is negative. *)
Definition fmt_d (n : Z) : string :=
  DecimalString.NilZero.string_of_int (Z.to_int n).

(** [RPCConfig.HttpEndpoint]. *)
Definition RPCConfig_HttpEndpoint (cfg : RPCConfig) : string :=
  ("http://" ++ RPC_ListenAddr cfg ++ ":" ++ fmt_d (RPC_ListenPort cfg))%string.

(** The supervisor endpoint is absent, or present with a failing [Check]. *)
Definition Supervisor_missing_or_invalid (cfg : Config) : Prop :=
  Supervisor cfg = None
  \/ exists sv e,
       Supervisor cfg = Some sv /\ SupervisorEndpointSetup_Check sv = Some e.

Definition with_Supervisor (sv : option SupervisorEndpointSetup) (cfg : Config)
  : Config :=
  mk_Config (L1 cfg) (L2 cfg) (Beacon cfg) sv (Driver cfg)
    (Rollup cfg) (RPC cfg) (P2P cfg) (Metrics cfg) (Pprof cfg)
    (L1EpochPollInterval cfg) (Persistence cfg) (SafeDBPath cfg)
    (RuntimeConfigReloadInterval cfg) (RollupHalt cfg) (ConductorEnabled cfg)
    (ConductorRpcTimeout cfg) (AltDA cfg) (DAC cfg).

(** What the gate's call of a sub-configuration's own [Check] returns at
    check [st]; nil where the gate makes no such call. *)
Definition delegated (cfg : Config) (st : Step) : error :=
  match st with
  | step_L1 => L1EndpointSetup_Check (L1 cfg)
  | step_L2 => L2EndpointSetup_Check (L2 cfg)
  | step_Beacon =>
      match EcotoneTime (Rollup cfg), Beacon cfg with
      | Some _, Some b => L1BeaconEndpointSetup_Check b
      | _, _ => None
      end
  | step_Supervisor =>
      match InteropTime (Rollup cfg), Supervisor cfg with
      | Some _, Some sv => SupervisorEndpointSetup_Check sv
      | _, _ => None
      end
  | step_Rollup => rollup_Config_Check (Rollup cfg)
  | step_Metrics => MetricsConfig_Check (Metrics cfg)
  | step_Pprof => oppprof_CLIConfig_Check (Pprof cfg)
  | step_P2P =>
      match P2P cfg with
      | Some p => SetupP2P_Check p
      | None => None
      end
  | step_AltDA => altda_CLIConfig_Check (AltDA cfg)
  | step_Halt | step_Conductor | step_DAC => None
  end.

(** What [Config.Check] appended to the trace. *)
Definition added_by_Check (env : Env) : list Event :=
  skipn (List.length (env_trace env)) (env_trace (state_after env)).

(** A configuration that passes the secondary checks, with the given
    supervisor setting, halting option and metrics listener. *)
Definition sample_cfg2 (it : option Z) (sv : option SupervisorEndpointSetup)
    (halt : string) (met : MetricsConfig) (p2p : option p2p_SetupP2P)
    (ad : altda_CLIConfig) (ce : bool) (store : ConfigPersistence) : Config :=
  mk_Config
    {| L1EndpointSetup_Check := None |}
    {| L2EndpointSetup_Check := None |}
    None sv
    {| SequencerEnabled := true; SequencerStopped := false |}
    {| EcotoneTime := None; InteropTime := it;
       rollup_Config_Check := None; IsL2BlobTimeSet := false |}
    {| RPC_ListenAddr := "127.0.0.1"; RPC_ListenPort := 9545;
       EnableAdmin := false |}
    p2p met
    {| oppprof_CLIConfig_Check := None |}
    384 store EmptyString 600 halt ce 1 ad None.

Definition altda_off : altda_CLIConfig :=
  {| AltDA_Enabled := false; altda_CLIConfig_Check := None |}.



(** Every invariant of the gate, each read off its check: the endpoints and
    delegated parts are valid, a scheduled upgrade has its endpoint, the
    metrics port is in range, the halting option is a known one,
    coordination comes with sequencing and no persisted state, and the
    committee is configured exactly for a sequencer with the blob time
    set. *)
Definition gate_holds (cfg : Config) (n : nat) : Prop :=
  L1EndpointSetup_Check (L1 cfg) = None
  /\ L2EndpointSetup_Check (L2 cfg) = None
  /\ (EcotoneTime (Rollup cfg) <> None ->
      exists b, Beacon cfg = Some b /\ L1BeaconEndpointSetup_Check b = None)
  /\ (InteropTime (Rollup cfg) <> None ->
      exists sv, Supervisor cfg = Some sv
                 /\ SupervisorEndpointSetup_Check sv = None)
  /\ rollup_Config_Check (Rollup cfg) = None
  /\ (Enabled (Metrics cfg) = true -> 0 <= ListenPort (Metrics cfg) <= 65535)
  /\ oppprof_CLIConfig_Check (Pprof cfg) = None
  /\ (forall p, P2P cfg = Some p -> SetupP2P_Check p = None)
  /\ In (RollupHalt cfg) [EmptyString; "major"; "minor"; "patch"]
  /\ (ConductorEnabled cfg = true ->
      fst (SequencerState (Persistence cfg) n) = StateUnset
      /\ SequencerEnabled (Driver cfg) = true)
  /\ altda_CLIConfig_Check (AltDA cfg) = None
  /\ (DAC cfg <> None
      <-> SequencerEnabled (Driver cfg) = true
          /\ IsL2BlobTimeSet (Rollup cfg) = true).

Definition is_Conductor (st : Step) : bool :=
  match st with
  | step_Conductor => true
  | _ => false
  end.

(** A peer-to-peer setup that is present, switched off, and invalid. *)
Definition p2p_off_invalid : p2p_SetupP2P :=
  {| SetupP2P_Check := Some (errors_New "invalid peer key");
     SetupP2P_Disabled := true |}.

(* ------------------------------------------------------------------ *)
(** ** packages/contracts-bedrock/src/L2/SoulGasToken.sol *)

Module SoulGasToken.

Definition address : Type := Z.

Definition uint256_max : Z := 2 ^ 256 - 1.

(** How a call ends: it returns, it reverts with a reason (the empty one
    when the revert carries no data), or it panics (0x11 on overflow of
    checked arithmetic). A call that does not return leaves the storage as it
    was. *)
Inductive outcome (A : Type) : Type :=
| Ok (a : A)
| Revert (reason : string)
| Panic (code : Z).

Arguments Ok {A} a.
Arguments Revert {A} reason.
Arguments Panic {A} code.

Definition and_then {A B} (r : outcome A) (k : A -> outcome B) : outcome B :=
  match r with
  | Ok a => k a
  | Revert reason => Revert reason
  | Panic code => Panic code
  end.

(** The contract: its immutable, the constant [Constants.DEPOSITOR_ACCOUNT]
    it compares callers with, the three whitelists of SoulGasTokenStorage,
    the owner of OwnableUpgradeable, the balances and the supply of
    ERC20Upgradeable, the native balance of the contract's address, and the
    native payments it has made, oldest first. *)
Record Storage : Type := mk_Storage {
  IS_BACKED_BY_NATIVE : bool;
  DEPOSITOR_ACCOUNT : address;
  _minters : address -> bool;
  _burners : address -> bool;
  _allow_sgt_value : address -> bool;
  _owner : address;
  _balances : address -> Z;
  _totalSupply : Z;
  this_balance : Z;
  sent : list (address * Z)
}.

(** The call at hand: [msg.sender], [msg.value], and whether the sender
    takes a plain transfer of native token. *)
Record Msg : Type := {
  msg_sender : address;
  msg_value : Z;
  sender_accepts : bool
}.

(** A mapping with one slot written. *)
Definition upd {A} (m : address -> A) (k : address) (v : A) : address -> A :=
  fun a => if a =? k then v else m a.

Definition set_minters (m : address -> bool) (s : Storage) : Storage :=
  mk_Storage (IS_BACKED_BY_NATIVE s) (DEPOSITOR_ACCOUNT s) m (_burners s)
    (_allow_sgt_value s) (_owner s) (_balances s) (_totalSupply s)
    (this_balance s) (sent s).

Definition set_burners (m : address -> bool) (s : Storage) : Storage :=
  mk_Storage (IS_BACKED_BY_NATIVE s) (DEPOSITOR_ACCOUNT s) (_minters s) m
    (_allow_sgt_value s) (_owner s) (_balances s) (_totalSupply s)
    (this_balance s) (sent s).

Definition set_allow_sgt_value (m : address -> bool) (s : Storage) : Storage :=
  mk_Storage (IS_BACKED_BY_NATIVE s) (DEPOSITOR_ACCOUNT s) (_minters s)
    (_burners s) m (_owner s) (_balances s) (_totalSupply s)
    (this_balance s) (sent s).

Definition set_token (balances : address -> Z) (supply : Z) (s : Storage)
  : Storage :=
  mk_Storage (IS_BACKED_BY_NATIVE s) (DEPOSITOR_ACCOUNT s) (_minters s)
    (_burners s) (_allow_sgt_value s) (_owner s) balances supply
    (this_balance s) (sent s).

Definition set_native (balance : Z) (payments : list (address * Z))
    (s : Storage) : Storage :=
  mk_Storage (IS_BACKED_BY_NATIVE s) (DEPOSITOR_ACCOUNT s) (_minters s)
    (_burners s) (_allow_sgt_value s) (_owner s) (_balances s)
    (_totalSupply s) balance payments.

(** [ERC20Upgradeable._mint] of OpenZeppelin 4.7. *)
Definition _mint (account : address) (amount : Z) (s : Storage)
  : outcome Storage :=
  if account =? 0 then Revert "ERC20: mint to the zero address"
  else if _totalSupply s + amount >? uint256_max then Panic 17
  else if _balances s account + amount >? uint256_max then Panic 17
  else Ok (set_token (upd (_balances s) account (_balances s account + amount))
                     (_totalSupply s + amount) s).

(** [ERC20Upgradeable._burn] of OpenZeppelin 4.7. *)
Definition _burn (account : address) (amount : Z) (s : Storage)
  : outcome Storage :=
  if account =? 0 then Revert "ERC20: burn from the zero address"
  else if _balances s account <? amount
       then Revert "ERC20: burn amount exceeds balance"
  else if _totalSupply s <? amount then Panic 17
  else Ok (set_token (upd (_balances s) account (_balances s account - amount))
                     (_totalSupply s - amount) s).

(** The modifier [onlyOwner] of OwnableUpgradeable. *)
Definition onlyOwner (msg : Msg) (s : Storage) (body : outcome Storage)
  : outcome Storage :=
  if _owner s =? msg_sender msg then body
  else Revert "Ownable: caller is not the owner".

(** A function that is not payable refuses a call that carries value. *)
Definition nonpayable (msg : Msg) (body : outcome Storage) : outcome Storage :=
  if msg_value msg =? 0 then body else Revert EmptyString.

(** A payable function runs with the value already on the contract's
    balance. *)
Definition receive_value (msg : Msg) (s : Storage) : Storage :=
  set_native (this_balance s + msg_value msg) (sent s) s.

(** [payable(_msgSender()).transfer(amount)]. *)
Definition transfer_to_sender (msg : Msg) (amount : Z) (s : Storage)
  : outcome Storage :=
  if this_balance s <? amount then Revert EmptyString
  else if negb (sender_accepts msg) then Revert EmptyString
  else Ok (set_native (this_balance s - amount)
                      (sent s ++ [(msg_sender msg, amount)]) s).

Definition require (cond : bool) (reason : string) (body : outcome Storage)
  : outcome Storage :=
  if cond then body else Revert reason.

Definition same_length (accounts : list address) (values : list Z) : bool :=
  Nat.eqb (List.length accounts) (List.length values).

(** [deposit]. *)
Definition deposit (msg : Msg) (s : Storage) : outcome Storage :=
  let s := receive_value msg s in
  require (IS_BACKED_BY_NATIVE s)
    "deposit should only be called when IS_BACKED_BY_NATIVE"
    (_mint (msg_sender msg) (msg_value msg) s).

(** The loop of [batchDepositFor] and of [batchWithdrawFrom]: [step] on each
    account with its value, [totalValue] growing by the value. *)
Fixpoint loop_total (step : address -> Z -> Storage -> outcome Storage)
    (accounts : list address) (values : list Z) (totalValue : Z) (s : Storage)
  : outcome (Z * Storage) :=
  match accounts, values with
  | account :: accounts', v :: values' =>
      and_then (step account v s) (fun s' =>
        if totalValue + v >? uint256_max then Panic 17
        else loop_total step accounts' values' (totalValue + v) s')
  | _, _ => Ok (totalValue, s)
  end.

(** The loop of [batchMint] and of [batchBurnFrom]. *)
Fixpoint loop_each (step : address -> Z -> Storage -> outcome Storage)
    (accounts : list address) (values : list Z) (s : Storage)
  : outcome Storage :=
  match accounts, values with
  | account :: accounts', v :: values' =>
      and_then (step account v s) (loop_each step accounts' values')
  | _, _ => Ok s
  end.

(** [batchDepositFor]. *)
Definition batchDepositFor (accounts : list address) (values : list Z)
    (msg : Msg) (s : Storage) : outcome Storage :=
  let s := receive_value msg s in
  require (same_length accounts values) "invalid arguments"
    (require (IS_BACKED_BY_NATIVE s)
       "batchDepositFor should only be called when IS_BACKED_BY_NATIVE"
       (and_then (loop_total _mint accounts values 0 s) (fun r =>
          let (totalValue, s') := r in
          require (msg_value msg =? totalValue) "unexpected msg.value"
            (Ok s')))).

(** [withdrawFrom]. *)
Definition withdrawFrom (account : address) (value : Z) (msg : Msg)
    (s : Storage) : outcome Storage :=
  nonpayable msg
    (require (IS_BACKED_BY_NATIVE s)
       "withdrawFrom should only be called when IS_BACKED_BY_NATIVE"
       (require (_burners s (msg_sender msg)) "not the burner"
          (and_then (_burn account value s) (transfer_to_sender msg value)))).

(** [batchWithdrawFrom]. *)
Definition batchWithdrawFrom (accounts : list address) (values : list Z)
    (msg : Msg) (s : Storage) : outcome Storage :=
  nonpayable msg
    (require (same_length accounts values) "invalid arguments"
       (require (IS_BACKED_BY_NATIVE s)
          "batchWithdrawFrom should only be called when IS_BACKED_BY_NATIVE"
          (require (_burners s (msg_sender msg)) "not the burner"
             (and_then (loop_total _burn accounts values 0 s) (fun r =>
                let (totalValue, s') := r in
                transfer_to_sender msg totalValue s'))))).

(** [batchMint]. *)
Definition batchMint (accounts : list address) (values : list Z)
    (msg : Msg) (s : Storage) : outcome Storage :=
  nonpayable msg
    (require (same_length accounts values) "invalid arguments"
       (require ((msg_sender msg =? DEPOSITOR_ACCOUNT s)
                 || _minters s (msg_sender msg)) "not a minter"
          (loop_each _mint accounts values s))).

(** The loops of the six whitelist functions: every listed address gets
    [flag]. *)
Fixpoint mark (flag : bool) (listed : list address) (m : address -> bool)
  : address -> bool :=
  match listed with
  | [] => m
  | a :: rest => mark flag rest (upd m a flag)
  end.

(** [addMinters]. *)
Definition addMinters (minters_ : list address) (msg : Msg) (s : Storage)
  : outcome Storage :=
  nonpayable msg (onlyOwner msg s
    (require (negb (IS_BACKED_BY_NATIVE s))
       "addMinters should only be called when !IS_BACKED_BY_NATIVE"
       (Ok (set_minters (mark true minters_ (_minters s)) s)))).

(** [delMinters]. *)
Definition delMinters (minters_ : list address) (msg : Msg) (s : Storage)
  : outcome Storage :=
  nonpayable msg (onlyOwner msg s
    (require (negb (IS_BACKED_BY_NATIVE s))
       "delMinters should only be called when !IS_BACKED_BY_NATIVE"
       (Ok (set_minters (mark false minters_ (_minters s)) s)))).

(** [addBurners]. *)
Definition addBurners (burners_ : list address) (msg : Msg) (s : Storage)
  : outcome Storage :=
  nonpayable msg (onlyOwner msg s
    (Ok (set_burners (mark true burners_ (_burners s)) s))).

(** [delBurners]. *)
Definition delBurners (burners_ : list address) (msg : Msg) (s : Storage)
  : outcome Storage :=
  nonpayable msg (onlyOwner msg s
    (Ok (set_burners (mark false burners_ (_burners s)) s))).

(** [allowSgtValue]. *)
Definition allowSgtValue (contracts : list address) (msg : Msg) (s : Storage)
  : outcome Storage :=
  nonpayable msg (onlyOwner msg s
    (require (IS_BACKED_BY_NATIVE s)
       "allowSgtValue should only be called when IS_BACKED_BY_NATIVE"
       (Ok (set_allow_sgt_value (mark true contracts (_allow_sgt_value s)) s)))).

(** [disallowSgtValue]. *)
Definition disallowSgtValue (contracts : list address) (msg : Msg)
    (s : Storage) : outcome Storage :=
  nonpayable msg (onlyOwner msg s
    (require (IS_BACKED_BY_NATIVE s)
       "disallowSgtValue should only be called when IS_BACKED_BY_NATIVE"
       (Ok (set_allow_sgt_value (mark false contracts (_allow_sgt_value s)) s)))).

(** [burnFrom]. *)
Definition burnFrom (account : address) (value : Z) (msg : Msg) (s : Storage)
  : outcome Storage :=
  nonpayable msg
    (require (negb (IS_BACKED_BY_NATIVE s))
       "burnFrom should only be called when !IS_BACKED_BY_NATIVE"
       (require ((msg_sender msg =? DEPOSITOR_ACCOUNT s)
                 || _burners s (msg_sender msg)) "not the burner"
          (_burn account value s))).

(** [batchBurnFrom]. *)
Definition batchBurnFrom (accounts : list address) (values : list Z)
    (msg : Msg) (s : Storage) : outcome Storage :=
  nonpayable msg
    (require (same_length accounts values) "invalid arguments"
       (require (negb (IS_BACKED_BY_NATIVE s))
          "batchBurnFrom should only be called when !IS_BACKED_BY_NATIVE"
          (require ((msg_sender msg =? DEPOSITOR_ACCOUNT s)
                    || _burners s (msg_sender msg)) "not the burner"
             (loop_each _burn accounts values s)))).

(** [transfer]. *)
Definition transfer (to : address) (amount : Z) (msg : Msg) (s : Storage)
  : outcome Storage :=
  nonpayable msg (Revert "transfer is disabled for SoulGasToken").

(** [transferFrom]. *)
Definition transferFrom (from to : address) (amount : Z) (msg : Msg)
    (s : Storage) : outcome Storage :=
  nonpayable msg (Revert "transferFrom is disabled for SoulGasToken").

(** [approve]. *)
Definition approve (spender : address) (amount : Z) (msg : Msg) (s : Storage)
  : outcome Storage :=
  nonpayable msg (Revert "approve is disabled for SoulGasToken").

(** [isBackedByNative]. *)
Definition isBackedByNative (s : Storage) : bool := IS_BACKED_BY_NATIVE s.

(** The state-changing functions the contract itself declares. *)
Inductive Call : Type :=
| call_deposit
| call_batchDepositFor (accounts : list address) (values : list Z)
| call_withdrawFrom (account : address) (value : Z)
| call_batchWithdrawFrom (accounts : list address) (values : list Z)
| call_batchMint (accounts : list address) (values : list Z)
| call_addMinters (minters_ : list address)
| call_delMinters (minters_ : list address)
| call_addBurners (burners_ : list address)
| call_delBurners (burners_ : list address)
| call_allowSgtValue (contracts : list address)
| call_disallowSgtValue (contracts : list address)
| call_burnFrom (account : address) (value : Z)
| call_batchBurnFrom (accounts : list address) (values : list Z)
| call_transfer (to : address) (amount : Z)
| call_transferFrom (from to : address) (amount : Z)
| call_approve (spender : address) (amount : Z).

Definition exec (c : Call) (msg : Msg) (s : Storage) : outcome Storage :=
  match c with
  | call_deposit => deposit msg s
  | call_batchDepositFor accounts values => batchDepositFor accounts values msg s
  | call_withdrawFrom account value => withdrawFrom account value msg s
  | call_batchWithdrawFrom accounts values =>
      batchWithdrawFrom accounts values msg s
  | call_batchMint accounts values => batchMint accounts values msg s
  | call_addMinters l => addMinters l msg s
  | call_delMinters l => delMinters l msg s
  | call_addBurners l => addBurners l msg s
  | call_delBurners l => delBurners l msg s
  | call_allowSgtValue l => allowSgtValue l msg s
  | call_disallowSgtValue l => disallowSgtValue l msg s
  | call_burnFrom account value => burnFrom account value msg s
  | call_batchBurnFrom accounts values => batchBurnFrom accounts values msg s
  | call_transfer to amount => transfer to amount msg s
  | call_transferFrom from to amount => transferFrom from to amount msg s
  | call_approve spender amount => approve spender amount msg s
  end.

(** The values a call carries are uint256: none is negative. *)
Definition call_values (c : Call) : list Z :=
  match c with
  | call_batchDepositFor _ values | call_batchWithdrawFrom _ values
  | call_batchMint _ values | call_batchBurnFrom _ values => values
  | call_withdrawFrom _ value | call_burnFrom _ value => [value]
  | _ => []
  end.


(** The sum of the values listed for [account]. *)
Fixpoint listed_for (account : address) (accounts : list address)
    (values : list Z) : Z :=
  match accounts, values with
  | a :: accounts', v :: values' =>
      (if a =? account then v else 0) + listed_for account accounts' values'
  | _, _ => 0
  end.

Fixpoint total (values : list Z) : Z :=
  match values with
  | [] => 0
  | v :: rest => v + total rest
  end.

(** Sample data: the depositor account of the OP Stack, a contract just
    deployed in either mode, and a call that carries [value]. *)
Definition depositor : address :=
  0xDeaDDEaDDeAdDeAdDEAdDEaddeAddEAdDEAd0001.

Definition fresh (native : bool) (owner : address) : Storage :=
  mk_Storage native depositor (fun _ => false) (fun _ => false)
    (fun _ => false) owner (fun _ => 0) 0 0 [].

Definition from (sender : address) (value : Z) : Msg :=
  {| msg_sender := sender; msg_value := value; sender_accepts := true |}.

(** What a call does to the token when it returns: the sign is 1 for the
    minting functions and -1 for the burning ones, on the accounts and
    values listed. *)
Definition token_sign (c : Call) : Z :=
  match c with
  | call_deposit | call_batchDepositFor _ _ | call_batchMint _ _ => 1
  | call_withdrawFrom _ _ | call_batchWithdrawFrom _ _
  | call_burnFrom _ _ | call_batchBurnFrom _ _ => -1
  | _ => 0
  end.

Definition token_accounts (c : Call) (msg : Msg) : list address :=
  match c with
  | call_deposit => [msg_sender msg]
  | call_batchDepositFor accounts _ | call_batchWithdrawFrom accounts _
  | call_batchMint accounts _ | call_batchBurnFrom accounts _ => accounts
  | call_withdrawFrom account _ | call_burnFrom account _ => [account]
  | _ => []
  end.

Definition token_values (c : Call) (msg : Msg) : list Z :=
  match c with
  | call_deposit => [msg_value msg]
  | _ => call_values c
  end.

(** The native payment a call makes to its sender when it returns. *)
Definition payment (c : Call) (msg : Msg) : list (address * Z) :=
  match c with
  | call_withdrawFrom _ value => [(msg_sender msg, value)]
  | call_batchWithdrawFrom _ values => [(msg_sender msg, total values)]
  | _ => []
  end.

Definition paid (c : Call) : Z :=
  match c with
  | call_withdrawFrom _ value => value
  | call_batchWithdrawFrom _ values => total values
  | _ => 0
  end.

(** The storage holds uint256 quantities: none is negative. *)
Definition valid (s : Storage) : Prop :=
  (forall a, 0 <= _balances s a) /\ 0 <= _totalSupply s /\ 0 <= this_balance s.

(** Membership in an array of addresses. *)
Definition listed (a : address) (l : list address) : bool :=
  existsb (Z.eqb a) l.

(** The three whitelists after a returning call. *)
Definition minters_after (c : Call) (m : address -> bool) : address -> bool :=
  match c with
  | call_addMinters l => mark true l m
  | call_delMinters l => mark false l m
  | _ => m
  end.

Definition burners_after (c : Call) (m : address -> bool) : address -> bool :=
  match c with
  | call_addBurners l => mark true l m
  | call_delBurners l => mark false l m
  | _ => m
  end.

Definition allow_after (c : Call) (m : address -> bool) : address -> bool :=
  match c with
  | call_allowSgtValue l => mark true l m
  | call_disallowSgtValue l => mark false l m
  | _ => m
  end.


(** [s] with [b] put on the burners' whitelist. *)
Definition with_burner (b : address) (s : Storage) : Storage :=
  set_burners (upd (_burners s) b true) s.

End SoulGasToken.

(* ------------------------------------------------------------------ *)
(** ** The functions on small inputs *)

Example MetricsConfig_Check_port_0 : MetricsConfig_Check (metrics true 0) = None.
Proof. reflexivity. Qed.

Example MetricsConfig_Check_port_65535 :
  MetricsConfig_Check (metrics true 65535) = None.
Proof. reflexivity. Qed.

Example MetricsConfig_Check_port_65536 :
  MetricsConfig_Check (metrics true 65536)
  = Some (errors_New "invalid metrics port").
Proof. reflexivity. Qed.

Example MetricsConfig_Check_port_negative :
  MetricsConfig_Check (metrics true (-1))
  = Some (errors_New "invalid metrics port").
Proof. reflexivity. Qed.

Example MetricsConfig_Check_disabled :
  MetricsConfig_Check (metrics false 65536) = None.
Proof. reflexivity. Qed.

Lemma MetricsConfig_Check_ok (m : MetricsConfig) :
  MetricsConfig_Check m = None <->
  (Enabled m = true -> 0 <= ListenPort m <= 65535).
Proof.
  unfold MetricsConfig_Check, math_MaxUint16.
  destruct (Enabled m); cbn;
    [|split; [intros _ H'; discriminate H' | reflexivity]].
  destruct (Z.ltb_spec (ListenPort m) 0); cbn.
  - split; [discriminate|]. intros H'. specialize (H' eq_refl). lia.
  - destruct (Z.gtb_spec (ListenPort m) 65535).
    + split; [discriminate|]. intros H'. specialize (H' eq_refl). lia.
    + split; [intros _ _; lia | reflexivity].
Qed.

Example dac_row_T_T_present : dac_row true true one_url = None.
Proof. reflexivity. Qed.

Example dac_row_T_T_absent :
  dac_row true true None
  = Some (fmt_Errorf "dac.urls must be set for sequencer when l2 blob time is set" []).
Proof. reflexivity. Qed.

Example dac_row_F_F_present :
  dac_row false false one_url
  = Some (fmt_Errorf "dac.urls can only be set for sequencer when l2 blob time is set" []).
Proof. reflexivity. Qed.

Example dac_row_F_F_absent : dac_row false false None = None.
Proof. reflexivity. Qed.

Example dac_row_T_F_present :
  dac_row true false one_url
  = Some (fmt_Errorf "dac.urls can only be set for sequencer when l2 blob time is set" []).
Proof. reflexivity. Qed.

Example dac_row_F_T_present :
  dac_row false true one_url
  = Some (fmt_Errorf "dac.urls can only be set for sequencer when l2 blob time is set" []).
Proof. reflexivity. Qed.

(** A halting option outside the four accepted ones. *)
Example halt_option_rejected :
  halt_option_ok "none" = false /\ halt_option_ok "minor" = true
  /\ halt_option_ok EmptyString = true.
Proof. repeat split. Qed.

(* ------------------------------------------------------------------ *)
(** ** The gate refines the ordered list *)

Ltac run_monad :=
  unfold Config_Check, Config_LoadPersisted, bind, ret, get_cfg, put_cfg,
    call, read_SequencerState, log_Warn, log_Info, emit; cbn [env_cfg env_reads env_trace].

Lemma reads_in_app (a b : list Event) :
  reads_in (a ++ b) = (reads_in a + reads_in b)%nat.
Proof.
  induction a as [|ev a IH]; [reflexivity|].
  destruct ev as [[]|]; cbn; rewrite IH; reflexivity.
Qed.

Lemma snoc_snoc {A} (l : list A) (x y : A) : (l ++ [x]) ++ [y] = l ++ [x; y].
Proof. rewrite <- app_assoc. reflexivity. Qed.

Lemma runs_seq cfg (m : M error) (f : error_value -> error_value)
    (k : M error) (st : Step) (rest : list Step) :
  (forall n tr, exists r,
      m (mk_Env cfg n tr) =
        (r, mk_Env cfg (reads_in (step_events cfg st) + n)
                   (tr ++ step_events cfg st))
      /\ violation cfg n st = option_map f r) ->
  (forall n, run_gate cfg (reads_in (step_events cfg st) + n) rest
             = run_gate cfg n rest) ->
  runs_as cfg k rest ->
  runs_as cfg
    (bind m (fun o => match o with
                      | Some e => ret (Some (f e))
                      | None => k
                      end))
    (st :: rest).
Proof.
  intros Hm Hind Hk n tr.
  destruct (Hm n tr) as [r [Er Ev]].
  unfold bind. rewrite Er.
  unfold first_violation, gate_events, evaluated. cbn [run_gate].
  rewrite Ev.
  destruct r as [e|]; cbn [option_map].
  - cbn. rewrite app_nil_r. reflexivity.
  - rewrite Hk.
    unfold first_violation, gate_events, evaluated.
    rewrite Hind.
    destruct (run_gate cfg n rest) as [res done]. cbn.
    rewrite reads_in_app, app_assoc.
    f_equal. f_equal. lia.
Qed.

Ltac case_split :=
  repeat (match goal with
          | |- context [RunningState_eqb ?x _] => is_var x; destruct x
          | |- context [negb ?x] => destruct x
          | |- context [match ?x with _ => _ end] =>
              lazymatch x with
              | context [match _ with _ => _ end] => fail
              | _ => destruct x
              end
          end; cbn).

Ltac block_step :=
  apply runs_seq;
  [ intros ? ?; unfold call, bind, ret, read_SequencerState; cbn;
    case_split; rewrite ?app_nil_r; eexists; split; reflexivity
  | intros ?;
    first [ reflexivity
          | match goal with
            | |- run_gate _ (?r + _) _ = _ =>
                replace r with 0%nat by (cbn; case_split; reflexivity);
                reflexivity
            end ]
  | ].

Lemma Config_Check_runs_as (cfg : Config) : runs_as cfg Config_Check gate_order.
Proof.
  intros n tr.
  unfold Config_Check. unfold bind at 1. unfold get_cfg. cbv beta iota.
  cbn [env_cfg].
  revert n tr.
  match goal with
  | |- forall n tr, ?m (mk_Env _ n tr) = _ => change (runs_as cfg m gate_order)
  end.
  unfold gate_order.
  do 10 block_step.
  intros n tr.
  destruct cfg as [l1 l2 bc sv [se ss] [et it rc bl] rpc p2p met pp pi
                   store sdb rri halt ce crt [ae ac] dac].
  unfold first_violation, gate_events, evaluated, call, bind, ret, log_Warn, emit.
  cbn.
  destruct ac; cbn; [reflexivity|].
  destruct ae, se, bl, dac; cbn; rewrite <- ?app_assoc; reflexivity.
Qed.

(** [Config.Check] is the fail-fast evaluation of the twelve checks in the
    listed order: its result is the first violation, the configuration it
    points at is as before, and the trace grows by the events of the checks
    evaluated. *)
Lemma Config_Check_run (env : Env) :
  Config_Check env =
    (first_violation (env_cfg env) (env_reads env) gate_order,
     mk_Env (env_cfg env)
       (reads_in (gate_events (env_cfg env) (env_reads env) gate_order)
        + env_reads env)
       (env_trace env
          ++ gate_events (env_cfg env) (env_reads env) gate_order)).
Proof. destruct env as [cfg n tr]. apply Config_Check_runs_as. Qed.

(* ------------------------------------------------------------------ *)
(** ** Facts about fail-fast evaluation *)

Lemma gate_order_split (st : Step) : gate_order = before st ++ st :: after st.
Proof. destruct st; reflexivity. Qed.

Lemma In_before (st' st : Step) :
  In st' (before st) -> (step_index st' < step_index st)%nat.
Proof.
  destruct st; cbn; intros H;
    repeat (destruct H as [<-|H]; [cbn; lia|]); destruct H.
Qed.

Lemma run_gate_pass cfg n (pre rest : list Step) :
  (forall st', In st' pre -> violation cfg n st' = None) ->
  run_gate cfg n (pre ++ rest) =
    (fst (run_gate cfg n rest), pre ++ snd (run_gate cfg n rest)).
Proof.
  induction pre as [|st pre IH]; intros H; cbn [app run_gate].
  - destruct (run_gate cfg n rest); reflexivity.
  - rewrite (H st (or_introl eq_refl)).
    rewrite IH by (intros st' Hin; apply H; right; exact Hin).
    reflexivity.
Qed.

Lemma run_gate_from cfg n (st : Step) :
  passes_before cfg n st ->
  run_gate cfg n gate_order =
    (first_violation cfg n (st :: after st),
     before st ++ evaluated cfg n (st :: after st)).
Proof.
  intros H. rewrite (gate_order_split st) at 1.
  apply run_gate_pass. intros st' Hin. apply H, In_before, Hin.
Qed.

Lemma step_events_own cfg (st : Step) (ev : Event) :
  In ev (step_events cfg st) -> event_step ev = st.
Proof.
  destruct st; cbn;
    repeat match goal with
           | |- context [match ?x with _ => _ end] => destruct x; cbn
           end;
    intros H; repeat (destruct H as [<-|H]; [reflexivity|]); destruct H.
Qed.

Lemma events_within cfg (st : Step) (steps : list Step) :
  (forall st', In st' steps -> (step_index st' <= step_index st)%nat) ->
  Forall (fun ev => (step_index (event_step ev) <= step_index st)%nat)
         (flat_map (step_events cfg) steps).
Proof.
  intros H. apply Forall_forall. intros ev Hin.
  apply in_flat_map in Hin. destruct Hin as [st' [Hst' Hev]].
  rewrite (step_events_own _ _ _ Hev). apply H, Hst'.
Qed.

Lemma result_of_eq (env : Env) :
  result_of env = first_violation (env_cfg env) (env_reads env) gate_order.
Proof. unfold result_of. rewrite Config_Check_run. reflexivity. Qed.

Lemma state_after_eq (env : Env) :
  state_after env =
    mk_Env (env_cfg env) (reads_in (new_events env) + env_reads env)
           (env_trace env ++ new_events env).
Proof. unfold state_after. rewrite Config_Check_run. reflexivity. Qed.

Lemma result_of_from (env : Env) (st : Step) :
  passes_before (env_cfg env) (env_reads env) st ->
  result_of env =
    first_violation (env_cfg env) (env_reads env) (st :: after st).
Proof.
  intros H. rewrite result_of_eq. unfold first_violation at 1.
  rewrite (run_gate_from H). reflexivity.
Qed.

Lemma result_of_stop (env : Env) (st : Step) (e : error_value) :
  passes_before (env_cfg env) (env_reads env) st ->
  violation (env_cfg env) (env_reads env) st = Some e ->
  result_of env = Some e.
Proof.
  intros H Hv. rewrite (result_of_from _ H).
  unfold first_violation. cbn [run_gate]. rewrite Hv. reflexivity.
Qed.

Lemma result_of_next (env : Env) (st : Step) :
  passes_before (env_cfg env) (env_reads env) st ->
  violation (env_cfg env) (env_reads env) st = None ->
  result_of env = first_violation (env_cfg env) (env_reads env) (after st).
Proof.
  intros H Hv. rewrite (result_of_from _ H).
  unfold first_violation. cbn [run_gate]. rewrite Hv.
  destruct (run_gate _ _ (after st)); reflexivity.
Qed.

Lemma new_events_stop (env : Env) (st : Step) (e : error_value) :
  passes_before (env_cfg env) (env_reads env) st ->
  violation (env_cfg env) (env_reads env) st = Some e ->
  new_events env = flat_map (step_events (env_cfg env)) (before st ++ [st]).
Proof.
  intros H Hv. unfold new_events, gate_events, evaluated.
  rewrite (run_gate_from H). unfold evaluated. cbn [run_gate snd].
  rewrite Hv. reflexivity.
Qed.

Lemma violation_error_from cfg n (st : Step) (e : error_value) :
  violation cfg n st = Some e -> error_from st e = true.
Proof.
  destruct st; unfold violation, wrap;
    repeat match goal with
           | |- context [match ?x with _ => _ end] => destruct x
           end;
    intros [= <-]; reflexivity.
Qed.

Lemma error_from_unique cfg n (st st' : Step) (e : error_value) :
  violation cfg n st = Some e ->
  error_from st' e = true ->
  (1 < step_index st')%nat ->
  st = st'.
Proof.
  intros Hv Hf Hi.
  destruct st; unfold violation, wrap in Hv;
    repeat match type of Hv with
           | context [match ?x with _ => _ end] => destruct x
           end;
    try discriminate Hv; injection Hv as <-;
    destruct st'; vm_compute in Hf; try discriminate Hf;
    try reflexivity; cbn in Hi; lia.
Qed.

Lemma first_violation_In cfg n (steps : list Step) (e : error_value) :
  first_violation cfg n steps = Some e ->
  exists st, In st steps /\ violation cfg n st = Some e.
Proof.
  unfold first_violation.
  induction steps as [|st steps IH]; cbn [run_gate]; [discriminate|].
  destruct (violation cfg n st) as [e'|] eqn:Hv.
  - intros [= <-]. exists st. split; [left; reflexivity | exact Hv].
  - destruct (run_gate cfg n steps) as [r done]. cbn in *.
    intros Hr. destruct (IH Hr) as [st' [Hin Hv']].
    exists st'. split; [right; exact Hin | exact Hv'].
Qed.

Lemma In_after (st' st : Step) :
  In st' (after st) -> (step_index st < step_index st')%nat.
Proof.
  destruct st; cbn; intros H;
    repeat (destruct H as [<-|H]; [cbn; lia|]); destruct H.
Qed.

(** An error found by a check listed after [st] does not carry a format of
    [st]. *)
Lemma later_error_not_from cfg n (st : Step) (e : error_value) :
  (1 < step_index st)%nat ->
  first_violation cfg n (after st) = Some e ->
  error_from st e = false.
Proof.
  intros Hi Hf. destruct (first_violation_In _ _ _ Hf) as [st' [Hin Hv]].
  destruct (error_from st e) eqn:E; [|reflexivity].
  pose proof (error_from_unique _ _ _ _ Hv E Hi) as ->.
  apply In_after in Hin. lia.
Qed.

Ltac later_contra st Hr Hf :=
  let Hc := fresh "Hc" in
  assert (Hc := @later_error_not_from _ _ st _ ltac:(cbn; lia) Hr);
  rewrite Hc in Hf; discriminate Hf.

Ltac passes_by_computation :=
  let st := fresh "st" in
  let H := fresh "H" in
  intros st H; destruct st; cbn in H; try lia; reflexivity.

(* ------------------------------------------------------------------ *)
(** ** The gate: claims *)

(** C1. When every check listed before the data-availability-committee check
    holds, [Config.Check] succeeds exactly when (sequencer enabled and L2 blob
    time set) has the truth value of (DACConfig is non-nil); it returns the
    "must be set" error when both conjuncts hold and DACConfig is nil, and
    the "can only be set" error when DACConfig is non-nil and a conjunct is
    false. *)
Theorem Config_Check_DAC_biconditional (env : Env) :
  passes_before (env_cfg env) (env_reads env) step_DAC ->
  (result_of env = None <->
     DAC_required (env_cfg env) = DAC_present (env_cfg env))
  /\ (DAC_required (env_cfg env) = true -> DAC (env_cfg env) = None ->
      result_of env = Some (fmt_Errorf
        "dac.urls must be set for sequencer when l2 blob time is set" []))
  /\ (DAC_required (env_cfg env) = false -> DAC (env_cfg env) <> None ->
      result_of env = Some (fmt_Errorf
        "dac.urls can only be set for sequencer when l2 blob time is set" [])).
Proof.
  intros H. rewrite (result_of_from _ H).
  unfold first_violation, DAC_required, DAC_present. cbn.
  destruct (SequencerEnabled (Driver (env_cfg env))),
    (IsL2BlobTimeSet (Rollup (env_cfg env))), (DAC (env_cfg env));
    cbn; repeat split; intros; congruence.
Qed.

Lemma Config_Check_DAC_biconditional_witness :
  let env := start (sample_cfg None 7300 None None true false true false
                      unset_store (Some {| URLS := ["http://dac-1:8888"] |})) 0 in
  passes_before (env_cfg env) (env_reads env) step_DAC
  /\ result_of env = None
  /\ DAC_required (env_cfg env) = DAC_present (env_cfg env).
Proof.
  intros env.
  assert (H : passes_before (env_cfg env) (env_reads env) step_DAC)
    by passes_by_computation.
  split; [exact H|].
  destruct (Config_Check_DAC_biconditional env H) as [[_ Hok] _].
  split; [apply Hok|]; reflexivity.
Defined.

(** C2. The gate is fail-fast in the listed order: when check [st] is
    violated and every check listed before it holds, [Config.Check] returns
    exactly the error of [st], whatever the later checks would report, and
    the trace grows only by events of checks up to [st]: no later check is
    evaluated. *)
Theorem Config_Check_fail_fast (env : Env) (st : Step) (e : error_value) :
  passes_before (env_cfg env) (env_reads env) st ->
  violation (env_cfg env) (env_reads env) st = Some e ->
  result_of env = Some e
  /\ env_trace (state_after env) = env_trace env ++ new_events env
  /\ Forall (fun ev => (step_index (event_step ev) <= step_index st)%nat)
            (new_events env).
Proof.
  intros H Hv. split; [exact (result_of_stop _ H Hv)|].
  split; [rewrite state_after_eq; reflexivity|].
  rewrite (new_events_stop _ H Hv).
  apply events_within. intros st' Hin.
  apply in_app_or in Hin. destruct Hin as [Hin|[<-|[]]].
  - apply In_before in Hin. lia.
  - lia.
Qed.

(** The primary endpoint check and the metrics port are both violated: only
    the primary endpoint's error is reported, and only that check is run. *)
Lemma Config_Check_fail_fast_witness :
  let env := start (sample_cfg (Some dial_error) 70000 None None false false
                      false false unset_store None) 0 in
  passes_before (env_cfg env) (env_reads env) step_L1
  /\ violation (env_cfg env) (env_reads env) step_L1
     = Some (fmt_Errorf "l2 endpoint config error: %w" [arg_error dial_error])
  /\ violation (env_cfg env) (env_reads env) step_Metrics
     = Some (fmt_Errorf "metrics config error: %w"
               [arg_error (errors_New "invalid metrics port")])
  /\ result_of env
     = Some (fmt_Errorf "l2 endpoint config error: %w" [arg_error dial_error])
  /\ env_trace (state_after env) = [Ev_call call_L1_Check].
Proof.
  intros env.
  assert (H : passes_before (env_cfg env) (env_reads env) step_L1)
    by passes_by_computation.
  split; [exact H|].
  split; [reflexivity|].
  split; [reflexivity|].
  destruct (Config_Check_fail_fast env (st := step_L1) H eq_refl) as [Hr [Ht _]].
  split; [exact Hr|].
  rewrite Ht. reflexivity.
Defined.

(** C3. When the two endpoint checks listed before it hold: with the Ecotone
    timestamp set, [Config.Check] fails at the consensus-data-endpoint step
    exactly when the Beacon endpoint is nil or its own [Check] returns an
    error; with the timestamp unset, no error comes from that step and the
    result is the same whatever the Beacon field holds, nil included. *)
Theorem Config_Check_beacon_gating (env : Env) :
  passes_before (env_cfg env) (env_reads env) step_Beacon ->
  (forall t, EcotoneTime (Rollup (env_cfg env)) = Some t ->
     (fails_at env step_Beacon <-> Beacon_missing_or_invalid (env_cfg env)))
  /\ (EcotoneTime (Rollup (env_cfg env)) = None ->
      ~ fails_at env step_Beacon
      /\ forall b,
           result_of (mk_Env (with_Beacon b (env_cfg env)) (env_reads env)
                             (env_trace env))
           = result_of env).
Proof.
  intros H. split.
  - intros t Ht. unfold fails_at, Beacon_missing_or_invalid. split.
    + intros [e [Hr Hf]].
      destruct (violation (env_cfg env) (env_reads env) step_Beacon) eqn:Hv.
      * cbn in Hv. rewrite Ht in Hv.
        destruct (Beacon (env_cfg env)) as [b|]; [|left; reflexivity].
        right. exists b.
        destruct (L1BeaconEndpointSetup_Check b) as [eb|]; [|discriminate].
        exists eb. split; reflexivity.
      * rewrite (result_of_next _ H Hv) in Hr.
        later_contra step_Beacon Hr Hf.
    + intros Hb.
      assert (Hv : exists e, violation (env_cfg env) (env_reads env) step_Beacon
                             = Some e).
      { cbn. rewrite Ht. destruct Hb as [->|[b [e [-> ->]]]]; eexists; reflexivity. }
      destruct Hv as [e Hv]. exists e.
      split; [exact (result_of_stop _ H Hv) | exact (violation_error_from _ _ _ Hv)].
  - intros Ht. split.
    + intros [e [Hr Hf]].
      assert (Hv : violation (env_cfg env) (env_reads env) step_Beacon = None)
        by (cbn; rewrite Ht; reflexivity).
      rewrite (result_of_next _ H Hv) in Hr.
      later_contra step_Beacon Hr Hf.
    + intros b. rewrite !result_of_eq.
      destruct env as [cfg n tr]. cbn [env_cfg env_reads] in *.
      destruct cfg as [l1 l2 bc sv dr [et it rc bl] rpc p2p met pp pi
                       store sdb rri halt ce crt ad dac].
      cbn in Ht. subst et. reflexivity.
Qed.

Lemma Config_Check_beacon_gating_witness :
  let env := start (sample_cfg None 7300 (Some 1710374401) None false false
                      false false unset_store None) 0 in
  passes_before (env_cfg env) (env_reads env) step_Beacon
  /\ EcotoneTime (Rollup (env_cfg env)) = Some 1710374401
  /\ Beacon_missing_or_invalid (env_cfg env)
  /\ fails_at env step_Beacon.
Proof.
  intros env.
  assert (H : passes_before (env_cfg env) (env_reads env) step_Beacon)
    by passes_by_computation.
  split; [exact H|].
  split; [reflexivity|].
  assert (Hb : Beacon_missing_or_invalid (env_cfg env)) by (left; reflexivity).
  split; [exact Hb|].
  destruct (Config_Check_beacon_gating env H) as [Hset _].
  apply (Hset 1710374401 eq_refl). exact Hb.
Defined.

(** C4. When every check listed before it holds and ConductorEnabled is
    true: [Config.Check] fails with the persistence error when the persisted
    state is not unset; it fails at the coordination check when
    SequencerEnabled is false; and with sequencing enabled and the state
    unset the coordination check passes, the result being that of the two
    checks listed after it. *)
Theorem Config_Check_conductor (env : Env) :
  passes_before (env_cfg env) (env_reads env) step_Conductor ->
  ConductorEnabled (env_cfg env) = true ->
  (persisted_state env <> StateUnset ->
     result_of env = Some (fmt_Errorf
       "config persistence must be disabled when conductor is enabled" []))
  /\ (SequencerEnabled (Driver (env_cfg env)) = false ->
      fails_at env step_Conductor)
  /\ (SequencerEnabled (Driver (env_cfg env)) = true ->
      persisted_state env = StateUnset ->
      ~ fails_at env step_Conductor
      /\ result_of env
         = first_violation (env_cfg env) (env_reads env) [step_AltDA; step_DAC]).
Proof.
  intros H Hce. unfold persisted_state.
  assert (Hv : violation (env_cfg env) (env_reads env) step_Conductor =
               match fst (SequencerState (Persistence (env_cfg env)) (env_reads env)) with
               | StateUnset =>
                   if SequencerEnabled (Driver (env_cfg env)) then None
                   else Some (fmt_Errorf
                          "sequencer must be enabled when conductor is enabled" [])
               | _ => Some (fmt_Errorf
                        "config persistence must be disabled when conductor is enabled" [])
               end)
    by (cbn; rewrite Hce; reflexivity).
  split; [|split].
  - intros Hs. apply (result_of_stop _ H). rewrite Hv.
    destruct (fst _); [contradiction|reflexivity|reflexivity].
  - intros Hse. rewrite Hse in Hv.
    assert (He : exists e, violation (env_cfg env) (env_reads env) step_Conductor
                           = Some e)
      by (rewrite Hv; destruct (fst _); eexists; reflexivity).
    destruct He as [e He]. exists e.
    split; [exact (result_of_stop _ H He) | exact (violation_error_from _ _ _ He)].
  - intros Hse Hs. rewrite Hse, Hs in Hv. split.
    + intros [e [Hr Hf]].
      rewrite (result_of_next _ H Hv) in Hr.
      later_contra step_Conductor Hr Hf.
    + exact (result_of_next _ H Hv).
Qed.

Lemma Config_Check_conductor_witness :
  let env := start (sample_cfg None 7300 None None true false true true
                      unset_store (Some {| URLS := ["http://dac-1:8888"] |})) 0 in
  passes_before (env_cfg env) (env_reads env) step_Conductor
  /\ ConductorEnabled (env_cfg env) = true
  /\ SequencerEnabled (Driver (env_cfg env)) = true
  /\ persisted_state env = StateUnset
  /\ ~ fails_at env step_Conductor
  /\ result_of env = None.
Proof.
  intros env.
  assert (H : passes_before (env_cfg env) (env_reads env) step_Conductor)
    by passes_by_computation.
  split; [exact H|].
  split; [reflexivity|].
  split; [reflexivity|].
  split; [reflexivity|].
  destruct (Config_Check_conductor env H eq_refl) as [_ [_ Hok]].
  destruct (Hok eq_refl eq_refl) as [Hnf Hr].
  split; [exact Hnf|].
  rewrite Hr. reflexivity.
Defined.

(** C10. [Config.Check] never changes the configuration it points at: after
    the call, on success and on error alike, it is the configuration of
    before. *)
Theorem Config_Check_frame (env : Env) :
  env_cfg (state_after env) = env_cfg env.
Proof. rewrite state_after_eq. reflexivity. Qed.

(* ------------------------------------------------------------------ *)
(** ** Reconciliation with the persisted state: claims *)

(** C7. [Config.LoadPersisted] returns nil at once and changes nothing when
    SequencerEnabled is false. With sequencing enabled, when the store
    reports started or stopped it returns nil and sets
    Driver.SequencerStopped to (state == stopped) whatever the flag held,
    touching no other field and logging one notice exactly when the flag
    held another value; when the store reports unset it returns nil and
    changes no field. *)
Theorem Config_LoadPersisted_spec (env : Env) :
  (SequencerEnabled (Driver (env_cfg env)) = false ->
     Config_LoadPersisted env = (None, env))
  /\ (SequencerEnabled (Driver (env_cfg env)) = true ->
      forall state, next_answer env = (state, None) -> state <> StateUnset ->
        let stopped := RunningState_eqb state StateStopped in
        fst (Config_LoadPersisted env) = None
        /\ env_cfg (snd (Config_LoadPersisted env))
           = set_SequencerStopped stopped (env_cfg env)
        /\ SequencerStopped (Driver (env_cfg (snd (Config_LoadPersisted env))))
           = stopped
        /\ env_trace (snd (Config_LoadPersisted env))
           = env_trace env ++ Ev_call call_SequencerState ::
               (if Bool.eqb stopped (SequencerStopped (Driver (env_cfg env)))
                then [] else [override_notice stopped]))
  /\ (SequencerEnabled (Driver (env_cfg env)) = true ->
      next_answer env = (StateUnset, None) ->
        fst (Config_LoadPersisted env) = None
        /\ env_cfg (snd (Config_LoadPersisted env)) = env_cfg env).
Proof.
  unfold next_answer. destruct env as [cfg n tr].
  cbn [env_cfg env_reads env_trace].
  split; [|split].
  - intros Hse. run_monad. rewrite Hse. reflexivity.
  - intros Hse state Hst Hne.
    run_monad. rewrite Hse. cbn. rewrite Hst.
    destruct state; [contradiction| |]; cbn;
      destruct (SequencerStopped (Driver cfg)); cbn;
      rewrite <- ?app_assoc; repeat split; reflexivity.
  - intros Hse Hst. run_monad. rewrite Hse. cbn. rewrite Hst. split; reflexivity.
Qed.

Lemma Config_LoadPersisted_spec_witness :
  let env := start (sample_cfg None 7300 None None true false false false
                      (const_store (StateStopped, None)) None) 0 in
  SequencerEnabled (Driver (env_cfg env)) = true
  /\ next_answer env = (StateStopped, None)
  /\ SequencerStopped (Driver (env_cfg env)) = false
  /\ fst (Config_LoadPersisted env) = None
  /\ SequencerStopped (Driver (env_cfg (snd (Config_LoadPersisted env)))) = true
  /\ env_trace (snd (Config_LoadPersisted env))
     = [Ev_call call_SequencerState; override_notice true].
Proof.
  intros env.
  split; [reflexivity|].
  split; [reflexivity|].
  split; [reflexivity|].
  destruct (Config_LoadPersisted_spec env) as [_ [Hset _]].
  destruct (Hset eq_refl StateStopped eq_refl) as [Hr [_ [Hs Ht]]];
    [discriminate|].
  split; [exact Hr|].
  split; [exact Hs|].
  rewrite Ht. reflexivity.
Defined.

(** C8. Reconciliation is idempotent: when the store gives the same answer
    to two consecutive reads, a second [Config.LoadPersisted] right after the
    first leaves Driver.SequencerStopped, and the whole configuration, as the
    first call left it, returns what the first returned, and logs no
    override. *)
Theorem Config_LoadPersisted_idempotent (env : Env) :
  SequencerState (Persistence (env_cfg env)) (S (env_reads env))
    = SequencerState (Persistence (env_cfg env)) (env_reads env) ->
  let once := Config_LoadPersisted env in
  let twice := Config_LoadPersisted (snd once) in
  SequencerStopped (Driver (env_cfg (snd twice)))
    = SequencerStopped (Driver (env_cfg (snd once)))
  /\ env_cfg (snd twice) = env_cfg (snd once)
  /\ fst twice = fst once
  /\ exists added,
       env_trace (snd twice) = env_trace (snd once) ++ added
       /\ forall stopped, ~ In (override_notice stopped) added.
Proof.
  destruct env as [cfg n tr]. cbn [env_cfg env_reads env_trace].
  intros Hsame.
  destruct cfg as [l1 l2 bc sv [se ss] ro rpc p2p met pp pi
                   [store] sdb rri halt ce crt ad dac].
  cbn in Hsame. run_monad. cbn.
  destruct se; cbn.
  - destruct (store n) as [state [e|]] eqn:E1;
      [|destruct state; [|destruct ss|destruct ss]];
      cbn; rewrite Hsame; cbn; repeat split;
      eexists; (split; [first [reflexivity | apply snoc_snoc]|]);
      intros stopped Hin; cbn in Hin; intuition discriminate.
  - repeat split. exists []. split; [symmetry; apply app_nil_r|].
    intros stopped [].
Qed.

Lemma Config_LoadPersisted_idempotent_witness :
  let env := start (sample_cfg None 7300 None None true false false false
                      (const_store (StateStopped, None)) None) 0 in
  let once := Config_LoadPersisted env in
  let twice := Config_LoadPersisted (snd once) in
  SequencerState (Persistence (env_cfg env)) (S (env_reads env))
    = SequencerState (Persistence (env_cfg env)) (env_reads env)
  /\ SequencerStopped (Driver (env_cfg (snd once))) = true
  /\ SequencerStopped (Driver (env_cfg (snd twice))) = true.
Proof.
  intros env once twice.
  split; [reflexivity|].
  split; [reflexivity|].
  destruct (Config_LoadPersisted_idempotent env eq_refl) as [Hs _].
  fold once twice in Hs. rewrite Hs. reflexivity.
Defined.

(* ------------------------------------------------------------------ *)
(** ** Errors of the store *)

(** C5, as stated, fails: the gate reads the store, the read returns an
    error, and [Config.Check] returns nil. *)
Lemma Config_Check_drops_store_error :
  ConductorEnabled (env_cfg env_unreadable_store) = true
  /\ snd (next_answer env_unreadable_store) = Some store_error
  /\ In (Ev_call call_SequencerState) (env_trace (state_after env_unreadable_store))
  /\ result_of env_unreadable_store = None
  /\ result_of env_unreadable_store <> Some store_error.
Proof.
  repeat split; try reflexivity.
  - vm_compute. repeat (first [left; reflexivity | right]).
  - vm_compute. discriminate.
Qed.

(** C5, amended. [Config.LoadPersisted], on the path that reads the store
    (sequencing enabled), returns an error of the read as it is, unwrapped,
    and leaves the configuration as it was. [Config.Check] discards the error
    of its read: its result depends on the state the read returned and not
    on the error returned with it. *)
Theorem store_error_handling (env : Env) (state : RunningState)
    (e : error_value) :
  next_answer env = (state, Some e) ->
  (SequencerEnabled (Driver (env_cfg env)) = true ->
     Config_LoadPersisted env =
       (Some e, mk_Env (env_cfg env) (S (env_reads env))
                       (env_trace env ++ [Ev_call call_SequencerState])))
  /\ (forall r : error,
        result_of (mk_Env (with_Persistence (const_store (state, r)) (env_cfg env))
                          (env_reads env) (env_trace env))
        = result_of env).
Proof.
  unfold next_answer. destruct env as [cfg n tr].
  cbn [env_cfg env_reads env_trace]. intros Hans. split.
  - intros Hse. run_monad. rewrite Hse. cbn. rewrite Hans. reflexivity.
  - intros r. rewrite !result_of_eq. cbn [env_cfg env_reads].
    destruct cfg as [l1 l2 bc sv dr ro rpc p2p met pp pi
                     [store] sdb rri halt ce crt ad dac].
    cbn in Hans. unfold first_violation, gate_order. cbn. rewrite Hans.
    reflexivity.
Qed.

Lemma store_error_handling_witness :
  next_answer env_unreadable_store = (StateUnset, Some store_error)
  /\ SequencerEnabled (Driver (env_cfg env_unreadable_store)) = true
  /\ fst (Config_LoadPersisted env_unreadable_store) = Some store_error
  /\ env_cfg (snd (Config_LoadPersisted env_unreadable_store))
     = env_cfg env_unreadable_store.
Proof.
  split; [reflexivity|].
  split; [reflexivity|].
  destruct (store_error_handling env_unreadable_store eq_refl) as [Hload _].
  rewrite (Hload eq_refl). split; reflexivity.
Defined.

(* ------------------------------------------------------------------ *)
(** ** The names in the gate's errors *)

(** C6: the primary endpoint's failure carries the secondary endpoint's
    name. A configuration whose L1 endpoint alone fails and one whose L2
    endpoint alone fails with the same cause get the same error from
    [Config.Check], named "l2 endpoint config error". *)
Theorem Config_Check_L1_error_named_l2 :
  result_of (start (with_L1_L2 (Some dial_error) None plain_cfg) 0)
    = Some (fmt_Errorf "l2 endpoint config error: %w" [arg_error dial_error])
  /\ result_of (start (with_L1_L2 None (Some dial_error) plain_cfg) 0)
     = result_of (start (with_L1_L2 (Some dial_error) None plain_cfg) 0).
Proof. split; reflexivity. Qed.

(* ------------------------------------------------------------------ *)
(** ** The committee's URL list *)

Example strings_Split_two : strings_Split "http://a,http://b" "," = ["http://a"; "http://b"].
Proof. reflexivity. Qed.

Example strings_Split_one : strings_Split "http://a" "," = ["http://a"].
Proof. reflexivity. Qed.

Example strings_Split_comma : strings_Split "," "," = [EmptyString; EmptyString].
Proof. reflexivity. Qed.

Lemma strings_Split_nonempty (s : string) (sep : ascii) :
  strings_Split s sep <> [].
Proof.
  destruct s as [|c rest]; cbn; [discriminate|].
  destruct (Ascii.eqb c sep); [discriminate|].
  destruct (strings_Split rest sep); discriminate.
Qed.

Lemma ReadDACConfigFromCLI_nonempty (c : cli_Context) (d : DACConfig) :
  ReadDACConfigFromCLI c = Some d -> URLS d <> [].
Proof.
  unfold ReadDACConfigFromCLI.
  destruct (String.eqb (cli_String c DACUrlsFlag) EmptyString); [discriminate|].
  intros [= <-]. apply strings_Split_nonempty.
Qed.

Lemma result_of_with_DAC_Some (env : Env) (d d' : DACConfig) :
  DAC (env_cfg env) = Some d ->
  result_of (mk_Env (with_DAC (Some d') (env_cfg env)) (env_reads env)
                    (env_trace env))
  = result_of env.
Proof.
  intros Hd. rewrite !result_of_eq. destruct env as [cfg n tr].
  cbn [env_cfg env_reads] in *.
  destruct cfg as [l1 l2 bc sv dr ro rpc p2p met pp pi
                   store sdb rri halt ce crt ad dac].
  cbn in Hd. subst dac. reflexivity.
Qed.

(** C9, as stated, fails: [Config.Check] succeeds on a configuration whose
    DACConfig is non-nil with an empty URL list. *)
Lemma Config_Check_accepts_empty_URLS :
  result_of env_empty_URLS = None
  /\ DAC (env_cfg env_empty_URLS) = Some {| URLS := [] |}
  /\ DACConfig_Client (DAC (env_cfg env_empty_URLS)) = None.
Proof. repeat split. Qed.

(** C9, amended. After [Config.Check] returns success, a DACConfig that is
    non-nil and was produced by [ReadDACConfigFromCLI] has a non-empty URL
    list, and [DACConfig.Client] yields a client for it. The gate itself does
    not look at the list: with any other list in its place, the empty one
    included, [Config.Check] succeeds as well. *)
Theorem Config_Check_DAC_URLS (env : Env) (c : cli_Context) (d : DACConfig) :
  result_of env = None ->
  DAC (env_cfg env) = ReadDACConfigFromCLI c ->
  DAC (env_cfg env) = Some d ->
  URLS d <> []
  /\ DACConfig_Client (DAC (env_cfg env)) = Some (client_New (URLS d))
  /\ forall urls,
       result_of (mk_Env (with_DAC (Some {| URLS := urls |}) (env_cfg env))
                         (env_reads env) (env_trace env)) = None.
Proof.
  intros Hok Hcli Hd.
  assert (Hne : URLS d <> [])
    by (apply (ReadDACConfigFromCLI_nonempty c); congruence).
  split; [exact Hne|]. split.
  - rewrite Hd. cbn. destruct (URLS d); [contradiction|reflexivity].
  - intros urls. rewrite (result_of_with_DAC_Some env _ Hd). exact Hok.
Qed.

Lemma Config_Check_DAC_URLS_witness :
  let env := start (sample_cfg None 7300 None None true false true false
                      unset_store (ReadDACConfigFromCLI cli_two_urls)) 0 in
  let d := {| URLS := ["http://dac-1:8888"; "http://dac-2:8888"] |} in
  result_of env = None
  /\ DAC (env_cfg env) = ReadDACConfigFromCLI cli_two_urls
  /\ DAC (env_cfg env) = Some d
  /\ URLS d <> [].
Proof.
  intros env d.
  split; [reflexivity|].
  split; [reflexivity|].
  split; [reflexivity|].
  exact (proj1 (@Config_Check_DAC_URLS env cli_two_urls d
                  eq_refl eq_refl eq_refl)).
Defined.

(* ------------------------------------------------------------------ *)
(** ** The committee's URLs as read from the command line *)

Lemma strings_Join_cons (e h : string) (t : list string) (sep : string) :
  strings_Join (e :: h :: t) sep
  = (e ++ sep ++ strings_Join (h :: t) sep)%string.
Proof. reflexivity. Qed.

Lemma strings_Split_Join (s : string) (sep : ascii) :
  strings_Join (strings_Split s sep) (String sep EmptyString) = s.
Proof.
  induction s as [|c rest IH]; [reflexivity|].
  cbn [strings_Split].
  pose proof (strings_Split_nonempty rest sep) as Hn.
  destruct (Ascii.eqb_spec c sep) as [->|Hne].
  - destruct (strings_Split rest sep) as [|h t]; [contradiction|].
    rewrite strings_Join_cons, IH. reflexivity.
  - destruct (strings_Split rest sep) as [|h t]; [contradiction|].
    destruct t as [|h' t'].
    + cbn in *. rewrite IH. reflexivity.
    + rewrite strings_Join_cons in *. rewrite <- IH. reflexivity.
Qed.

Lemma strings_Split_pieces (s : string) (sep : ascii) :
  Forall (fun piece => contains_byte sep piece = false) (strings_Split s sep).
Proof.
  induction s as [|c rest IH]; cbn [strings_Split].
  - constructor; [reflexivity|constructor].
  - destruct (Ascii.eqb_spec c sep) as [->|Hne].
    + constructor; [reflexivity|exact IH].
    + destruct (strings_Split rest sep) as [|h t].
      * constructor; [|constructor]. cbn.
        destruct (Ascii.eqb_spec c sep); [contradiction|reflexivity].
      * inversion IH as [|? ? Hh Ht]; subst. constructor; [|exact Ht].
        cbn. destruct (Ascii.eqb_spec c sep); [contradiction|exact Hh].
Qed.

Lemma strings_Split_length (s : string) (sep : ascii) :
  List.length (strings_Split s sep) = S (strings_Count s sep).
Proof.
  induction s as [|c rest IH]; [reflexivity|].
  cbn [strings_Split strings_Count].
  destruct (Ascii.eqb c sep); cbn [List.length]; [rewrite IH; reflexivity|].
  destruct (strings_Split rest sep); cbn in *; congruence.
Qed.




(** X1. What [ReadDACConfigFromCLI] returns spells the flag back: joining
    the URLs with commas gives the flag's value, no URL holds a comma, and
    there is one URL more than there are commas in the flag. *)
Theorem ReadDACConfigFromCLI_round_trip (c : cli_Context) (d : DACConfig) :
  ReadDACConfigFromCLI c = Some d ->
  strings_Join (URLS d) "," = cli_String c DACUrlsFlag
  /\ Forall (fun url => contains_byte "," url = false) (URLS d)
  /\ List.length (URLS d) = S (strings_Count (cli_String c DACUrlsFlag) ",").
Proof.
  unfold ReadDACConfigFromCLI.
  destruct (String.eqb (cli_String c DACUrlsFlag) EmptyString); [discriminate|].
  intros [= <-]. cbn [URLS].
  split; [apply strings_Split_Join|].
  split; [apply strings_Split_pieces|apply strings_Split_length].
Qed.

Lemma ReadDACConfigFromCLI_round_trip_witness :
  ReadDACConfigFromCLI cli_two_urls
    = Some {| URLS := ["http://dac-1:8888"; "http://dac-2:8888"] |}
  /\ strings_Join ["http://dac-1:8888"; "http://dac-2:8888"] ","
     = cli_String cli_two_urls DACUrlsFlag.
Proof.
  split; [reflexivity|].
  exact (proj1 (@ReadDACConfigFromCLI_round_trip cli_two_urls
                  {| URLS := ["http://dac-1:8888"; "http://dac-2:8888"] |}
                  eq_refl)).
Defined.



(** X3. [ReadDACConfigFromCLI] followed by [DACConfig.Client]: there is no
    client exactly when the flag is empty, and otherwise the client is made
    of the flag's comma-separated pieces. *)
Theorem DACConfig_Client_of_CLI (c : cli_Context) :
  (DACConfig_Client (ReadDACConfigFromCLI c) = None
   <-> cli_String c DACUrlsFlag = EmptyString)
  /\ (cli_String c DACUrlsFlag <> EmptyString ->
      DACConfig_Client (ReadDACConfigFromCLI c)
      = Some (client_New (strings_Split (cli_String c DACUrlsFlag) ","))).
Proof.
  unfold ReadDACConfigFromCLI.
  destruct (String.eqb_spec (cli_String c DACUrlsFlag) EmptyString) as [He|Hne].
  - split; [split; [intros _; exact He | reflexivity] | contradiction].
  - pose proof (strings_Split_nonempty (cli_String c DACUrlsFlag) ",") as Hn.
    cbn. destruct (strings_Split (cli_String c DACUrlsFlag) ",");
      [contradiction|].
    cbn. split; [split; [discriminate|contradiction] | reflexivity].
Qed.

(** X4. Empty pieces are kept: a flag that ends in a comma yields the URLs
    of the flag without it, followed by an empty URL. *)
Theorem ReadDACConfigFromCLI_trailing_comma (urls : string) :
  ReadDACConfigFromCLI (cli_with_urls (urls ++ ",")%string)
  = Some {| URLS := strings_Split urls "," ++ [EmptyString] |}.
Proof.
  unfold ReadDACConfigFromCLI. cbn [cli_String cli_with_urls].
  assert (Hs : forall s, strings_Split (s ++ ",")%string ","
                         = strings_Split s "," ++ [EmptyString]).
  { induction s as [|a rest IH]; [reflexivity|].
    cbn [String.append strings_Split]. rewrite IH.
    destruct (Ascii.eqb a ","); [reflexivity|].
    pose proof (strings_Split_nonempty rest ",") as Hn.
    destruct (strings_Split rest ","); [contradiction|reflexivity]. }
  rewrite Hs.
  destruct (String.eqb_spec (urls ++ ",")%string EmptyString) as [He|_];
    [destruct urls; discriminate He | reflexivity].
Qed.

(* ------------------------------------------------------------------ *)
(** ** The RPC endpoint *)

Example RPCConfig_HttpEndpoint_local :
  RPCConfig_HttpEndpoint
    {| RPC_ListenAddr := "127.0.0.1"; RPC_ListenPort := 9545;
       EnableAdmin := false |}
  = "http://127.0.0.1:9545".
Proof. reflexivity. Qed.

Example fmt_d_zero_and_negative : fmt_d 0 = "0" /\ fmt_d (-80) = "-80".
Proof. split; reflexivity. Qed.

Lemma to_int_proper (n : Z) :
  Z.to_int n <> Decimal.Pos Decimal.Nil /\ Z.to_int n <> Decimal.Neg Decimal.Nil.
Proof.
  destruct n as [|p|p]; cbn; split; try discriminate;
    intros [= H]; exact (DecimalPos.Unsigned.to_uint_nonnil p H).
Qed.

Lemma fmt_d_inj (a b : Z) : fmt_d a = fmt_d b -> a = b.
Proof.
  unfold fmt_d. intros H.
  apply DecimalZ.to_int_inj.
  destruct (to_int_proper a) as [Ha1 Ha2], (to_int_proper b) as [Hb1 Hb2].
  pose proof (DecimalString.NilZero.isi (Z.to_int a) Ha1 Ha2) as Ia.
  pose proof (DecimalString.NilZero.isi (Z.to_int b) Hb1 Hb2) as Ib.
  rewrite H in Ia. congruence.
Qed.

Lemma digits_no_colon (d : Decimal.uint) :
  contains_byte ":" (DecimalString.NilEmpty.string_of_uint d) = false.
Proof. induction d; cbn; auto. Qed.

Lemma fmt_d_no_colon (n : Z) : contains_byte ":" (fmt_d n) = false.
Proof.
  unfold fmt_d.
  destruct (Z.to_int n) as [d|d]; cbn;
    destruct d; cbn; try reflexivity; apply digits_no_colon.
Qed.

Lemma contains_byte_app (c : ascii) (x y : string) :
  contains_byte c (x ++ String c y)%string = true.
Proof.
  induction x as [|a x IH]; cbn.
  - rewrite Ascii.eqb_refl. reflexivity.
  - rewrite IH. apply orb_true_r.
Qed.

Lemma split_at_last_colon (a1 a2 d1 d2 : string) :
  contains_byte ":" d1 = false ->
  contains_byte ":" d2 = false ->
  (a1 ++ String ":" d1 = a2 ++ String ":" d2)%string ->
  a1 = a2 /\ d1 = d2.
Proof.
  intros H1 H2. revert a2.
  induction a1 as [|c a1 IH]; intros [|c2 a2]; cbn.
  - intros [= ->]. split; reflexivity.
  - intros [= <- ->]. rewrite contains_byte_app in H1. discriminate.
  - intros [= -> <-]. rewrite contains_byte_app in H2. discriminate.
  - intros [= -> E]. destruct (IH _ E) as [-> ->]. split; reflexivity.
Qed.

Lemma append_cancel_l (p x y : string) :
  (p ++ x = p ++ y)%string -> x = y.
Proof.
  induction p as [|c p IH]; cbn; [trivial|].
  intros [= E]. exact (IH E).
Qed.

(** X5. [RPCConfig.HttpEndpoint] tells listeners apart: two configurations
    with the same endpoint string have the same listen address and the same
    port, whatever the address holds, colons included. *)
Theorem RPCConfig_HttpEndpoint_inj (c1 c2 : RPCConfig) :
  RPCConfig_HttpEndpoint c1 = RPCConfig_HttpEndpoint c2 ->
  RPC_ListenAddr c1 = RPC_ListenAddr c2
  /\ RPC_ListenPort c1 = RPC_ListenPort c2.
Proof.
  unfold RPCConfig_HttpEndpoint. intros H.
  apply append_cancel_l in H.
  destruct (@split_at_last_colon _ _ _ _ (fmt_d_no_colon _) (fmt_d_no_colon _) H)
    as [Ha Hp].
  split; [exact Ha | exact (@fmt_d_inj _ _ Hp)].
Qed.

Lemma RPCConfig_HttpEndpoint_inj_witness :
  let c := {| RPC_ListenAddr := "::1"; RPC_ListenPort := 8545;
              EnableAdmin := true |} in
  let c' := {| RPC_ListenAddr := "::1"; RPC_ListenPort := 8545;
               EnableAdmin := false |} in
  RPCConfig_HttpEndpoint c = RPCConfig_HttpEndpoint c'
  /\ RPC_ListenPort c = RPC_ListenPort c'.
Proof.
  intros c c'. split; [reflexivity|].
  exact (proj2 (@RPCConfig_HttpEndpoint_inj c c' eq_refl)).
Defined.

(* ------------------------------------------------------------------ *)
(** ** Where the gate stops *)

Lemma first_violation_None cfg n (steps : list Step) :
  first_violation cfg n steps = None
  <-> Forall (fun st => violation cfg n st = None) steps.
Proof.
  unfold first_violation.
  induction steps as [|st steps IH]; cbn [run_gate].
  - split; [constructor|reflexivity].
  - destruct (violation cfg n st) as [e|] eqn:Hv.
    + split; [discriminate|]. intros H. inversion H; congruence.
    + destruct (run_gate cfg n steps) as [r done]. cbn in *.
      split.
      * intros Hr. constructor; [exact Hv | apply IH, Hr].
      * intros H. inversion H; subst. apply IH. assumption.
Qed.

(** Either some check is the first violated one, or every check holds. *)
Lemma gate_outcome cfg n :
  (exists st e, passes_before cfg n st /\ violation cfg n st = Some e)
  \/ (forall st, violation cfg n st = None).
Proof.
  assert (Hstep : forall k,
            (exists st e, passes_before cfg n st /\ violation cfg n st = Some e)
            \/ (forall st, (step_index st < k)%nat -> violation cfg n st = None)).
  { induction k as [|k IH].
    - right. intros st H. lia.
    - destruct IH as [Hstop|Hpass]; [left; exact Hstop|].
      destruct (nth_error gate_order k) as [st|] eqn:Hk.
      + assert (Hik : step_index st = k).
        { do 12 (destruct k as [|k]; [injection Hk as <-; reflexivity|]).
          destruct k; discriminate Hk. }
        destruct (violation cfg n st) as [e|] eqn:Hv.
        * left. exists st, e. split; [|exact Hv].
          intros st' Hlt. apply Hpass. lia.
        * right. intros st' Hlt.
          destruct (Nat.eq_dec (step_index st') k) as [He|Hne].
          -- assert (st' = st) as -> by (destruct st', st; cbn in *; congruence).
             exact Hv.
          -- apply Hpass. lia.
      + right. intros st' Hlt.
        destruct (Nat.eq_dec (step_index st') k) as [He|Hne].
        * exfalso. subst k. destruct st'; discriminate Hk.
        * apply Hpass. lia. }
  destruct (Hstep 12%nat) as [Hstop|Hpass]; [left; exact Hstop|].
  right. intros st. apply Hpass. destruct st; cbn; lia.
Qed.

Lemma result_of_None (env : Env) :
  result_of env = None
  <-> forall st, violation (env_cfg env) (env_reads env) st = None.
Proof.
  rewrite result_of_eq, first_violation_None. split.
  - intros H st. rewrite Forall_forall in H. apply H.
    destruct st; cbn; tauto.
  - intros H. apply Forall_forall. intros st _. apply H.
Qed.

Lemma fails_at_iff (env : Env) (st : Step) :
  (1 < step_index st)%nat ->
  passes_before (env_cfg env) (env_reads env) st ->
  (fails_at env st <-> violation (env_cfg env) (env_reads env) st <> None).
Proof.
  intros Hi H. unfold fails_at. split.
  - intros [e [Hr Hf]] Hv.
    rewrite (result_of_next _ H Hv) in Hr.
    later_contra st Hr Hf.
  - intros Hv.
    destruct (violation (env_cfg env) (env_reads env) st) as [e|] eqn:E;
      [|contradiction].
    exists e. split; [exact (result_of_stop _ H E)|].
    exact (violation_error_from _ _ _ E).
Qed.

(* ------------------------------------------------------------------ *)
(** ** The gate: the checks the claims leave out *)

(** X6. When the checks listed before it hold: with the Interop timestamp
    set, [Config.Check] fails at the supervisor step exactly when the
    supervisor endpoint is nil or its own [Check] returns an error; with the
    timestamp unset no error comes from that step and the result is the same
    whatever the Supervisor field holds. *)
Theorem Config_Check_supervisor_gating (env : Env) :
  passes_before (env_cfg env) (env_reads env) step_Supervisor ->
  (forall t, InteropTime (Rollup (env_cfg env)) = Some t ->
     (fails_at env step_Supervisor
      <-> Supervisor_missing_or_invalid (env_cfg env)))
  /\ (InteropTime (Rollup (env_cfg env)) = None ->
      ~ fails_at env step_Supervisor
      /\ forall sv,
           result_of (mk_Env (with_Supervisor sv (env_cfg env)) (env_reads env)
                             (env_trace env))
           = result_of env).
Proof.
  intros H.
  pose proof (@fails_at_iff env step_Supervisor ltac:(cbn; lia) H) as Hf.
  split.
  - intros t Ht. rewrite Hf. unfold Supervisor_missing_or_invalid.
    cbn. rewrite Ht.
    destruct (Supervisor (env_cfg env)) as [sv|].
    + destruct (SupervisorEndpointSetup_Check sv) as [e|] eqn:E.
      * split; [|discriminate]. intros _. right. exists sv, e.
        split; [reflexivity|exact E].
      * split; [intros C; contradiction C; reflexivity|].
        intros [C|[sv' [e [[= <-] C]]]]; congruence.
    + split; [intros _; left; reflexivity | discriminate].
  - intros Ht. split.
    + rewrite Hf. cbn. rewrite Ht. intros C. apply C. reflexivity.
    + intros sv. rewrite !result_of_eq.
      destruct env as [cfg n tr]. cbn [env_cfg env_reads] in *.
      destruct cfg as [l1 l2 bc sv0 dr [et it rc bl] rpc p2p met pp pi
                       store sdb rri halt ce crt ad dac].
      cbn in Ht. subst it. reflexivity.
Qed.

Lemma Config_Check_supervisor_gating_witness :
  let env := start (sample_cfg2 (Some 1735689600) None EmptyString
                      (metrics false 0) None altda_off false unset_store) 0 in
  passes_before (env_cfg env) (env_reads env) step_Supervisor
  /\ InteropTime (Rollup (env_cfg env)) = Some 1735689600
  /\ fails_at env step_Supervisor.
Proof.
  intros env.
  assert (H : passes_before (env_cfg env) (env_reads env) step_Supervisor)
    by passes_by_computation.
  split; [exact H|]. split; [reflexivity|].
  destruct (Config_Check_supervisor_gating env H) as [Hset _].
  apply (Hset 1735689600 eq_refl). left. reflexivity.
Defined.

Lemma halt_option_ok_iff (h : string) :
  halt_option_ok h = true
  <-> h = EmptyString \/ h = "major" \/ h = "minor" \/ h = "patch".
Proof.
  unfold halt_option_ok.
  destruct (String.eqb_spec h EmptyString), (String.eqb_spec h "major"),
    (String.eqb_spec h "minor"), (String.eqb_spec h "patch"); cbn;
    intuition congruence.
Qed.

(** X7. When the checks listed before it hold, [Config.Check] stops at the
    halting option exactly when RollupHalt is none of the empty string,
    "major", "minor" and "patch" (the word "none" is refused like any
    other), and the error then quotes the option. *)
Theorem Config_Check_halt_option (env : Env) :
  passes_before (env_cfg env) (env_reads env) step_Halt ->
  (fails_at env step_Halt
   <-> ~ In (RollupHalt (env_cfg env)) [EmptyString; "major"; "minor"; "patch"])
  /\ (fails_at env step_Halt ->
      result_of env = Some (fmt_Errorf "invalid rollup halting option: %q"
                              [arg_string (RollupHalt (env_cfg env))])).
Proof.
  intros H.
  pose proof (@fails_at_iff env step_Halt ltac:(cbn; lia) H) as Hf.
  pose proof (halt_option_ok_iff (RollupHalt (env_cfg env))) as Hok.
  split.
  - rewrite Hf. cbn.
    destruct (halt_option_ok (RollupHalt (env_cfg env))).
    + split; [intros C; contradiction C; reflexivity|].
      intros C. exfalso. apply C.
      destruct (proj1 Hok eq_refl) as [E|[E|[E|E]]]; rewrite E; cbn; tauto.
    + split; [|discriminate]. intros _ Hin.
      assert (false = true); [|discriminate].
      apply Hok. cbn in Hin. intuition congruence.
  - intros Hfail. apply Hf in Hfail. apply (result_of_stop _ H).
    cbn in *. destruct (halt_option_ok (RollupHalt (env_cfg env)));
      [contradiction Hfail|]; reflexivity.
Qed.

Lemma Config_Check_halt_option_witness :
  let env := start (sample_cfg2 None None "none" (metrics false 0) None
                      altda_off false unset_store) 0 in
  passes_before (env_cfg env) (env_reads env) step_Halt
  /\ fails_at env step_Halt
  /\ result_of env = Some (fmt_Errorf "invalid rollup halting option: %q"
                             [arg_string "none"]).
Proof.
  intros env.
  assert (H : passes_before (env_cfg env) (env_reads env) step_Halt)
    by passes_by_computation.
  split; [exact H|].
  destruct (Config_Check_halt_option env H) as [Hiff Herr].
  assert (Hf : fails_at env step_Halt).
  { apply Hiff. cbn. intros [C|[C|[C|[C|[]]]]]; discriminate C. }
  split; [exact Hf | exact (Herr Hf)].
Defined.

Lemma added_by_Check_eq (env : Env) : added_by_Check env = new_events env.
Proof.
  unfold added_by_Check. rewrite state_after_eq. cbn [env_trace].
  rewrite skipn_app, skipn_all, Nat.sub_diag. reflexivity.
Qed.

Lemma before_In (st' st : Step) :
  (step_index st' < step_index st)%nat -> In st' (before st).
Proof. destruct st, st'; cbn; intros H; try lia; tauto. Qed.

Lemma evaluated_all cfg n :
  (forall st, violation cfg n st = None) ->
  evaluated cfg n gate_order = gate_order.
Proof.
  intros H. unfold evaluated.
  rewrite <- (app_nil_r gate_order) at 1.
  rewrite run_gate_pass by (intros st _; apply H).
  reflexivity.
Qed.

(** The checks evaluated are those up to the first violated one. *)
Lemma In_evaluated cfg n (st : Step) :
  In st (evaluated cfg n gate_order) <-> passes_before cfg n st.
Proof.
  destruct (gate_outcome cfg n) as [[st0 [e [H0 Hv0]]]|Hall].
  - unfold evaluated. rewrite (run_gate_from H0). cbn [snd].
    unfold evaluated. cbn [run_gate]. rewrite Hv0. cbn [snd].
    split.
    + intros Hin st' Hlt. apply H0.
      apply in_app_or in Hin. destruct Hin as [Hin|[<-|[]]].
      * apply In_before in Hin. lia.
      * exact Hlt.
    + intros Hst.
      destruct (Nat.lt_ge_cases (step_index st0) (step_index st)) as [Hlt|Hge].
      * rewrite (Hst _ Hlt) in Hv0. discriminate.
      * apply in_or_app.
        destruct (Nat.eq_dec (step_index st) (step_index st0)) as [He|Hne].
        -- right. left. destruct st, st0; cbn in He; congruence.
        -- left. apply before_In. lia.
  - rewrite (evaluated_all _ _ Hall). split.
    + intros _ st' _. apply Hall.
    + intros _. destruct st; cbn; tauto.
Qed.

(** An event is in what the gate appended exactly when its check was reached
    and emits it. *)
Lemma In_added_by_Check (env : Env) (ev : Event) :
  In ev (added_by_Check env)
  <-> passes_before (env_cfg env) (env_reads env) (event_step ev)
      /\ In ev (step_events (env_cfg env) (event_step ev)).
Proof.
  rewrite added_by_Check_eq. unfold new_events, gate_events.
  rewrite in_flat_map. split.
  - intros [st [Hst Hev]].
    pose proof (step_events_own _ _ _ Hev) as <-.
    split; [apply In_evaluated, Hst | exact Hev].
  - intros [Hp Hev]. exists (event_step ev).
    split; [apply In_evaluated, Hp | exact Hev].
Qed.

(** X8. [MetricsConfig.Check] accepts exactly the listeners that are
    disabled or whose port lies between 0 and 65535, both included, and has
    one error for all the others. *)
Theorem MetricsConfig_Check_bounds (m : MetricsConfig) :
  (MetricsConfig_Check m = None
   <-> (Enabled m = true -> 0 <= ListenPort m <= 65535))
  /\ (MetricsConfig_Check m <> None ->
      MetricsConfig_Check m = Some (errors_New "invalid metrics port")
      /\ Enabled m = true
      /\ (ListenPort m < 0 \/ 65535 < ListenPort m)).
Proof.
  split; [apply MetricsConfig_Check_ok|].
  unfold MetricsConfig_Check, math_MaxUint16.
  destruct (Enabled m); cbn; [|intros C; contradiction C; reflexivity].
  destruct (Z.ltb_spec (ListenPort m) 0); cbn.
  - intros _. split; [reflexivity|]. split; [reflexivity|]. left. assumption.
  - destruct (Z.gtb_spec (ListenPort m) 65535).
    + intros _. split; [reflexivity|]. split; [reflexivity|]. right. lia.
    + intros C. contradiction C. reflexivity.
Qed.

(** X9. When the checks listed before it hold, [Config.Check] stops at the
    metrics check exactly when metrics are enabled with a port below 0 or
    above 65535, and its error then wraps "invalid metrics port". *)
Theorem Config_Check_metrics_port (env : Env) :
  passes_before (env_cfg env) (env_reads env) step_Metrics ->
  (fails_at env step_Metrics
   <-> Enabled (Metrics (env_cfg env)) = true
       /\ (ListenPort (Metrics (env_cfg env)) < 0
           \/ 65535 < ListenPort (Metrics (env_cfg env))))
  /\ (fails_at env step_Metrics ->
      result_of env = Some (fmt_Errorf "metrics config error: %w"
                              [arg_error (errors_New "invalid metrics port")])).
Proof.
  intros H.
  pose proof (@fails_at_iff env step_Metrics ltac:(cbn; lia) H) as Hf.
  assert (Hm : MetricsConfig_Check (Metrics (env_cfg env)) <> None
               <-> Enabled (Metrics (env_cfg env)) = true
                   /\ (ListenPort (Metrics (env_cfg env)) < 0
                       \/ 65535 < ListenPort (Metrics (env_cfg env)))).
  { pose proof (MetricsConfig_Check_ok (Metrics (env_cfg env))) as Hok.
    destruct (MetricsConfig_Check (Metrics (env_cfg env))) as [e|].
    - split; [|discriminate]. intros _.
      destruct (Enabled (Metrics (env_cfg env))).
      + split; [reflexivity|].
        destruct (Z_lt_ge_dec (ListenPort (Metrics (env_cfg env))) 0);
          [left; assumption|].
        destruct (Z_lt_ge_dec 65535 (ListenPort (Metrics (env_cfg env))));
          [right; assumption|].
        assert (Some e = None); [|discriminate].
        apply Hok. intros _. lia.
      + assert (Some e = None); [|discriminate].
        apply Hok. discriminate.
    - split; [intros C; contradiction C; reflexivity|].
      intros [He Hr]. pose proof (proj1 Hok eq_refl He). lia. }
  split.
  - rewrite Hf. cbn [violation]. rewrite <- Hm.
    destruct (MetricsConfig_Check (Metrics (env_cfg env))); cbn;
      split; congruence.
  - intros Hfail. apply Hf in Hfail. apply (result_of_stop _ H).
    cbn [violation] in *. unfold MetricsConfig_Check in *.
    destruct (negb (Enabled (Metrics (env_cfg env))));
      [contradiction Hfail; reflexivity|].
    destruct ((ListenPort (Metrics (env_cfg env)) <? 0)
              || (ListenPort (Metrics (env_cfg env)) >? math_MaxUint16));
      [reflexivity | contradiction Hfail; reflexivity].
Qed.

Lemma Config_Check_metrics_port_witness :
  let env := start (sample_cfg2 None None "major" (metrics true 65536) None
                      altda_off false unset_store) 0 in
  passes_before (env_cfg env) (env_reads env) step_Metrics
  /\ fails_at env step_Metrics
  /\ result_of env = Some (fmt_Errorf "metrics config error: %w"
                             [arg_error (errors_New "invalid metrics port")]).
Proof.
  intros env.
  assert (H : passes_before (env_cfg env) (env_reads env) step_Metrics)
    by passes_by_computation.
  split; [exact H|].
  destruct (Config_Check_metrics_port env H) as [Hiff Herr].
  assert (Hf : fails_at env step_Metrics).
  { apply Hiff. split; [reflexivity|]. right. cbn. lia. }
  split; [exact Hf | exact (Herr Hf)].
Defined.

(** X10. When [Config.Check] stops at a check that calls a
    sub-configuration's own [Check], the error it returns wraps that
    sub-configuration's error as it is: [errors.Unwrap] gives it back. *)
Theorem Config_Check_wraps_cause (env : Env) (st : Step) (cause : error_value) :
  passes_before (env_cfg env) (env_reads env) st ->
  delegated (env_cfg env) st = Some cause ->
  exists e, result_of env = Some e /\ errors_Unwrap e = Some cause.
Proof.
  intros H Hd.
  assert (Hv : exists e, violation (env_cfg env) (env_reads env) st = Some e
                         /\ errors_Unwrap e = Some cause).
  { destruct st; cbn in Hd |- *; try discriminate Hd;
      repeat match type of Hd with
             | context [match ?x with _ => _ end] => destruct x
             end;
      try discriminate Hd; rewrite ?Hd; cbn;
      eexists; (split; [reflexivity|]); cbn; congruence. }
  destruct Hv as [e [Hv Hu]]. exists e.
  split; [exact (result_of_stop _ H Hv) | exact Hu].
Qed.

Lemma Config_Check_wraps_cause_witness :
  let env := start (sample_cfg (Some dial_error) 7300 None None false false
                      false false unset_store None) 0 in
  passes_before (env_cfg env) (env_reads env) step_L1
  /\ delegated (env_cfg env) step_L1 = Some dial_error
  /\ exists e, result_of env = Some e /\ errors_Unwrap e = Some dial_error.
Proof.
  intros env.
  assert (H : passes_before (env_cfg env) (env_reads env) step_L1)
    by passes_by_computation.
  split; [exact H|]. split; [reflexivity|].
  exact (@Config_Check_wraps_cause env step_L1 dial_error H eq_refl).
Defined.

(** X11. An error of [Config.Check] that wraps a cause got it from the
    [Check] of one of the sub-configurations; the errors the gate raises on
    its own wrap nothing. *)
Theorem Config_Check_cause_is_delegated (env : Env) (e cause : error_value) :
  result_of env = Some e ->
  errors_Unwrap e = Some cause ->
  exists st, passes_before (env_cfg env) (env_reads env) st
             /\ delegated (env_cfg env) st = Some cause.
Proof.
  intros Hr Hu.
  destruct (gate_outcome (env_cfg env) (env_reads env))
    as [[st [e' [H Hv]]]|Hall].
  - rewrite (result_of_stop _ H Hv) in Hr. injection Hr as <-.
    exists st. split; [exact H|].
    destruct st; cbn in Hv |- *; unfold wrap in Hv;
      repeat match type of Hv with
             | context [match ?x with _ => _ end] => destruct x
             end;
      try discriminate Hv; injection Hv as <-; cbn in Hu;
      try discriminate Hu; congruence.
  - apply result_of_None in Hall. congruence.
Qed.

Lemma Config_Check_cause_is_delegated_witness :
  let env := start (sample_cfg2 None None "major" (metrics true (-1)) None
                      altda_off false unset_store) 0 in
  let e := fmt_Errorf "metrics config error: %w"
             [arg_error (errors_New "invalid metrics port")] in
  result_of env = Some e
  /\ errors_Unwrap e = Some (errors_New "invalid metrics port")
  /\ exists st, delegated (env_cfg env) st
                = Some (errors_New "invalid metrics port").
Proof.
  intros env e. split; [reflexivity|]. split; [reflexivity|].
  destruct (@Config_Check_cause_is_delegated env e
              (errors_New "invalid metrics port") eq_refl eq_refl)
    as [st [_ Hd]].
  exists st. exact Hd.
Defined.

(** X12. The peer-to-peer setup is checked whenever the P2P field is
    non-nil, switched off or not: when the checks listed before it hold,
    the gate calls its [Check] exactly when the field is non-nil, an error of
    that call fails the gate even where [Config.P2PEnabled] is false, and
    where [Config.P2PEnabled] is true the call is made. *)
Theorem Config_Check_P2P (env : Env) :
  passes_before (env_cfg env) (env_reads env) step_P2P ->
  (In (Ev_call call_P2P_Check) (added_by_Check env)
   <-> P2P (env_cfg env) <> None)
  /\ (forall p e, P2P (env_cfg env) = Some p -> SetupP2P_Check p = Some e ->
        result_of env
        = Some (fmt_Errorf "p2p config error: %w" [arg_error e]))
  /\ (Config_P2PEnabled (env_cfg env) = true ->
      In (Ev_call call_P2P_Check) (added_by_Check env)).
Proof.
  intros H.
  assert (Hin : In (Ev_call call_P2P_Check) (added_by_Check env)
                <-> P2P (env_cfg env) <> None).
  { rewrite In_added_by_Check. cbn [event_step step_events].
    destruct (P2P (env_cfg env)); cbn.
    - split; [discriminate|]. intros _. split; [exact H|left; reflexivity].
    - split; [intros [_ []] | intros C; contradiction C; reflexivity]. }
  split; [exact Hin|]. split.
  - intros p e Hp He. apply (result_of_stop _ H).
    cbn. rewrite Hp. cbn. rewrite He. reflexivity.
  - intros Hen. apply Hin. unfold Config_P2PEnabled in Hen.
    destruct (P2P (env_cfg env)); [discriminate|discriminate Hen].
Qed.

Lemma Config_Check_P2P_witness :
  let env := start (sample_cfg2 None None "major" (metrics true 7300)
                      (Some p2p_off_invalid) altda_off false unset_store) 0 in
  passes_before (env_cfg env) (env_reads env) step_P2P
  /\ Config_P2PEnabled (env_cfg env) = false
  /\ result_of env
     = Some (fmt_Errorf "p2p config error: %w"
               [arg_error (errors_New "invalid peer key")]).
Proof.
  intros env.
  assert (H : passes_before (env_cfg env) (env_reads env) step_P2P)
    by passes_by_computation.
  split; [exact H|]. split; [reflexivity|].
  destruct (Config_Check_P2P env H) as [_ [Herr _]].
  exact (Herr p2p_off_invalid _ eq_refl eq_refl).
Defined.


Lemma reads_in_step cfg (st : Step) :
  reads_in (step_events cfg st)
  = if is_Conductor st && ConductorEnabled cfg then 1%nat else 0%nat.
Proof.
  destruct st; cbn;
    repeat match goal with
           | |- context [match ?x with _ => _ end] => destruct x; cbn
           end; reflexivity.
Qed.

Lemma reads_in_upto cfg (st : Step) :
  reads_in (flat_map (step_events cfg) (before st ++ [st]))
  = if Nat.leb 9 (step_index st) && ConductorEnabled cfg then 1%nat else 0%nat.
Proof.
  destruct st; cbn [before step_index firstn gate_order app flat_map];
    rewrite ?reads_in_app, ?reads_in_step; cbn;
    destruct (ConductorEnabled cfg); reflexivity.
Qed.

(** X14. [Config.Check] reads the persisted-state store at most once, and
    it reads it exactly when coordination is enabled and the nine checks
    listed before the coordination check hold; with coordination disabled it
    never reads the store. *)
Theorem Config_Check_store_reads (env : Env) :
  (env_reads (state_after env) = S (env_reads env)
   <-> ConductorEnabled (env_cfg env) = true
       /\ passes_before (env_cfg env) (env_reads env) step_Conductor)
  /\ (env_reads (state_after env) = env_reads env
      \/ env_reads (state_after env) = S (env_reads env))
  /\ (In (Ev_call call_SequencerState) (added_by_Check env)
      <-> env_reads (state_after env) = S (env_reads env)).
Proof.
  assert (Hr : env_reads (state_after env)
               = (reads_in (new_events env) + env_reads env)%nat)
    by (rewrite state_after_eq; reflexivity).
  assert (Hin : In (Ev_call call_SequencerState) (added_by_Check env)
                <-> ConductorEnabled (env_cfg env) = true
                    /\ passes_before (env_cfg env) (env_reads env) step_Conductor).
  { rewrite In_added_by_Check. cbn [event_step step_events].
    destruct (ConductorEnabled (env_cfg env)); cbn.
    - split; [intros [Hp _]; auto | intros [_ Hp]; auto].
    - split; [intros [_ []] | intros [C _]; discriminate C]. }
  assert (Hcount : reads_in (new_events env) = 1%nat
                   <-> ConductorEnabled (env_cfg env) = true
                       /\ passes_before (env_cfg env) (env_reads env) step_Conductor).
  { destruct (gate_outcome (env_cfg env) (env_reads env))
      as [[st [e [H Hv]]]|Hall].
    - rewrite (new_events_stop _ H Hv), reads_in_upto.
      destruct (ConductorEnabled (env_cfg env)); rewrite ?andb_false_r, ?andb_true_r.
      + destruct (Nat.leb_spec 9 (step_index st)) as [Hle|Hlt].
        * split; [|reflexivity]. intros _. split; [reflexivity|].
          intros st' Hlt. apply H. cbn in Hlt. lia.
        * split; [discriminate|]. intros [_ Hp].
          assert (Hc : (step_index st < step_index step_Conductor)%nat)
            by (cbn; lia).
          rewrite (Hp _ Hc) in Hv. discriminate.
      + split; [discriminate | intros [C _]; discriminate C].
    - unfold new_events, gate_events. rewrite (evaluated_all _ _ Hall).
      change gate_order with (before step_DAC ++ [step_DAC]).
      rewrite reads_in_upto. cbn.
      destruct (ConductorEnabled (env_cfg env)).
      + split; [|reflexivity]. intros _. split; [reflexivity|].
        intros st' _. apply Hall.
      + split; [discriminate | intros [C _]; discriminate C]. }
  assert (Hle : (reads_in (new_events env) <= 1)%nat).
  { destruct (gate_outcome (env_cfg env) (env_reads env))
      as [[st [e [H Hv]]]|Hall].
    - rewrite (new_events_stop _ H Hv), reads_in_upto.
      destruct (_ && _); lia.
    - unfold new_events, gate_events. rewrite (evaluated_all _ _ Hall).
      change gate_order with (before step_DAC ++ [step_DAC]).
      rewrite reads_in_upto. destruct (_ && _); lia. }
  split; [rewrite Hr, <- Hcount; lia|].
  split; [lia|].
  rewrite Hin, Hr, <- Hcount. lia.
Qed.

(** X15. [Config.Check] returns nil exactly when every invariant of the
    gate holds: the order of the checks decides which error is reported,
    never whether one is. *)
Theorem Config_Check_success_iff (env : Env) :
  result_of env = None <-> gate_holds (env_cfg env) (env_reads env).
Proof.
  rewrite result_of_None.
  destruct env as [cfg n tr]. cbn [env_cfg env_reads].
  pose proof (MetricsConfig_Check_ok (Metrics cfg)) as Hmet.
  pose proof (halt_option_ok_iff (RollupHalt cfg)) as Hhalt.
  unfold gate_holds. split.
  - intros H.
    pose proof (H step_L1) as H1. pose proof (H step_L2) as H2.
    pose proof (H step_Beacon) as H3. pose proof (H step_Supervisor) as H4.
    pose proof (H step_Rollup) as H5. pose proof (H step_Metrics) as H6.
    pose proof (H step_Pprof) as H7. pose proof (H step_P2P) as H8.
    pose proof (H step_Halt) as H9. pose proof (H step_Conductor) as H10.
    pose proof (H step_AltDA) as H11. pose proof (H step_DAC) as H12.
    clear H. cbn [violation] in *. unfold wrap in *.
    split; [destruct (L1EndpointSetup_Check (L1 cfg));
              [discriminate H1|reflexivity]|].
    split; [destruct (L2EndpointSetup_Check (L2 cfg));
              [discriminate H2|reflexivity]|].
    split.
    { intros Ht. destruct (EcotoneTime (Rollup cfg)); [|contradiction Ht; reflexivity].
      destruct (Beacon cfg) as [b|]; [|discriminate H3]. exists b.
      split; [reflexivity|].
      destruct (L1BeaconEndpointSetup_Check b); [discriminate H3|reflexivity]. }
    split.
    { intros Ht. destruct (InteropTime (Rollup cfg)); [|contradiction Ht; reflexivity].
      destruct (Supervisor cfg) as [sv|]; [|discriminate H4]. exists sv.
      split; [reflexivity|].
      destruct (SupervisorEndpointSetup_Check sv); [discriminate H4|reflexivity]. }
    split; [destruct (rollup_Config_Check (Rollup cfg));
              [discriminate H5|reflexivity]|].
    split.
    { apply Hmet.
      destruct (MetricsConfig_Check (Metrics cfg)); [discriminate H6|reflexivity]. }
    split; [destruct (oppprof_CLIConfig_Check (Pprof cfg));
              [discriminate H7|reflexivity]|].
    split.
    { intros p Hp. rewrite Hp in H8.
      destruct (SetupP2P_Check p); [discriminate H8|reflexivity]. }
    split.
    { destruct (halt_option_ok (RollupHalt cfg)); [|discriminate H9].
      destruct (proj1 Hhalt eq_refl) as [E|[E|[E|E]]]; rewrite E; cbn; tauto. }
    split.
    { intros Hce. rewrite Hce in H10.
      destruct (fst (SequencerState (Persistence cfg) n));
        [|discriminate H10|discriminate H10].
      destruct (SequencerEnabled (Driver cfg)); [|discriminate H10].
      split; reflexivity. }
    split; [destruct (altda_CLIConfig_Check (AltDA cfg));
              [discriminate H11|reflexivity]|].
    clear H1 H2 H3 H4 H5 H6 H7 H8 H9 H10 H11 Hmet Hhalt.
    destruct (SequencerEnabled (Driver cfg)), (IsL2BlobTimeSet (Rollup cfg)),
      (DAC cfg) as [d|]; cbn in H12; try discriminate H12;
      (split; [intros C; try (contradiction C; reflexivity); split; reflexivity
              | intros [C1 C2]; try discriminate C1; try discriminate C2;
                discriminate]).
  - intros [G1 [G2 [G3 [G4 [G5 [G6 [G7 [G8 [G9 [G10 [G11 G12]]]]]]]]]]] st.
    destruct st; cbn [violation]; unfold wrap.
    + rewrite G1. reflexivity.
    + rewrite G2. reflexivity.
    + destruct (EcotoneTime (Rollup cfg)); [|reflexivity].
      destruct G3 as [b [-> ->]]; [discriminate|reflexivity].
    + destruct (InteropTime (Rollup cfg)); [|reflexivity].
      destruct G4 as [sv [-> ->]]; [discriminate|reflexivity].
    + rewrite G5. reflexivity.
    + rewrite (proj2 Hmet G6). reflexivity.
    + rewrite G7. reflexivity.
    + destruct (P2P cfg) as [p|]; [|reflexivity].
      rewrite (G8 p eq_refl). reflexivity.
    + rewrite (proj2 Hhalt); [reflexivity|].
      clear - G9. cbn in G9.
      destruct G9 as [E|[E|[E|[E|[]]]]]; rewrite <- E; tauto.
    + destruct (ConductorEnabled cfg); [|reflexivity].
      destruct (G10 eq_refl) as [-> ->]. reflexivity.
    + rewrite G11. reflexivity.
    + clear - G12.
      destruct (SequencerEnabled (Driver cfg)), (IsL2BlobTimeSet (Rollup cfg)),
        (DAC cfg) as [d|]; cbn; try reflexivity; exfalso.
      * destruct (proj2 G12 (conj eq_refl eq_refl)). reflexivity.
      * assert (C : true = true /\ false = true)
          by (apply G12; discriminate).
        destruct C as [_ C]. discriminate C.
      * assert (C : false = true /\ true = true)
          by (apply G12; discriminate).
        destruct C as [C _]. discriminate C.
      * assert (C : false = true /\ false = true)
          by (apply G12; discriminate).
        destruct C as [C _]. discriminate C.
Qed.

(* ------------------------------------------------------------------ *)
(** ** Reconciliation and the gate together *)

Lemma set_SequencerStopped_same (cfg : Config) :
  set_SequencerStopped (SequencerStopped (Driver cfg)) cfg = cfg.
Proof. destruct cfg as [? ? ? ? [se ss] ? ? ? ? ? ? ? ? ? ? ? ? ? ?]. reflexivity. Qed.

Lemma set_SequencerStopped_twice (a b : bool) (cfg : Config) :
  set_SequencerStopped a (set_SequencerStopped b cfg) = set_SequencerStopped a cfg.
Proof. reflexivity. Qed.

Lemma LoadPersisted_cfg_reads (env : Env) :
  env_cfg (snd (Config_LoadPersisted env))
  = set_SequencerStopped
      (SequencerStopped (Driver (env_cfg (snd (Config_LoadPersisted env)))))
      (env_cfg env)
  /\ env_reads (snd (Config_LoadPersisted env))
     = (if SequencerEnabled (Driver (env_cfg env)) then S (env_reads env)
        else env_reads env).
Proof.
  destruct env as [cfg n tr]. run_monad.
  destruct (SequencerEnabled (Driver cfg)); cbn.
  - destruct (SequencerState (Persistence cfg) n) as [state [e|]]; cbn.
    + split; [symmetry; apply set_SequencerStopped_same | reflexivity].
    + destruct state; cbn;
        [split; [symmetry; apply set_SequencerStopped_same | reflexivity]| |];
        destruct (SequencerStopped (Driver cfg)); cbn; split; reflexivity.
  - split; [symmetry; apply set_SequencerStopped_same | reflexivity].
Qed.

Lemma LoadPersisted_succeeds (env : Env) (state : RunningState) :
  SequencerState (Persistence (env_cfg env)) (env_reads env) = (state, None) ->
  fst (Config_LoadPersisted env) = None.
Proof.
  destruct env as [cfg n tr]. cbn [env_cfg env_reads]. intros Hans.
  run_monad. destruct (SequencerEnabled (Driver cfg)); cbn; [|reflexivity].
  rewrite Hans. destruct state; cbn; try reflexivity;
    destruct (SequencerStopped (Driver cfg)); reflexivity.
Qed.

(** X16. [Config.LoadPersisted] touches nothing but Driver.SequencerStopped:
    every other field of the configuration is as before, in every case. It
    reads the store once when sequencing is enabled and not at all otherwise,
    and what it logs is at most one record, sent to the logger it was
    given. *)
Theorem Config_LoadPersisted_frame (env : Env) :
  let after := snd (Config_LoadPersisted env) in
  env_cfg after
  = set_SequencerStopped (SequencerStopped (Driver (env_cfg after))) (env_cfg env)
  /\ env_reads after
     = (if SequencerEnabled (Driver (env_cfg env)) then S (env_reads env)
        else env_reads env)
  /\ exists added,
       env_trace after = env_trace env ++ added
       /\ (added = []
           \/ added = [Ev_call call_SequencerState]
           \/ exists r, added = [Ev_call call_SequencerState; Ev_log r]
                        /\ log_to r = logger_param).
Proof.
  destruct env as [cfg n tr]. cbn zeta. run_monad.
  destruct (SequencerEnabled (Driver cfg)) eqn:Hse; cbn.
  - destruct (SequencerState (Persistence cfg) n) as [state [e|]]; cbn.
    + split; [symmetry; apply set_SequencerStopped_same|].
      split; [reflexivity|]. eexists. split; [reflexivity|]. tauto.
    + destruct state; cbn.
      * split; [symmetry; apply set_SequencerStopped_same|].
        split; [reflexivity|]. eexists. split; [apply snoc_snoc|].
        right. right. eexists. split; reflexivity.
      * destruct (SequencerStopped (Driver cfg)); cbn;
          (split; [reflexivity|]); (split; [reflexivity|]).
        -- eexists. split; [apply snoc_snoc|].
           right. right. eexists. split; reflexivity.
        -- eexists. split; [reflexivity|]. tauto.
      * destruct (SequencerStopped (Driver cfg)); cbn;
          (split; [reflexivity|]); (split; [reflexivity|]).
        -- eexists. split; [reflexivity|]. tauto.
        -- eexists. split; [apply snoc_snoc|].
           right. right. eexists. split; reflexivity.
  - split; [symmetry; apply set_SequencerStopped_same|].
    split; [reflexivity|]. exists []. split; [symmetry; apply app_nil_r|].
    left. reflexivity.
Qed.

(** X17. [Config.LoadPersisted] returns an error exactly when sequencing is
    enabled and the read of the store returns one, and it is that error. *)
Theorem Config_LoadPersisted_error_iff (env : Env) (e : error_value) :
  fst (Config_LoadPersisted env) = Some e
  <-> SequencerEnabled (Driver (env_cfg env)) = true
      /\ snd (next_answer env) = Some e.
Proof.
  unfold next_answer. destruct env as [cfg n tr]. run_monad.
  destruct (SequencerEnabled (Driver cfg)); cbn.
  - destruct (SequencerState (Persistence cfg) n) as [state [e'|]]; cbn.
    + split; [intros H; split; [reflexivity|exact H] | intros [_ H]; exact H].
    + destruct state; cbn; try destruct (SequencerStopped (Driver cfg)); cbn;
        (split; [discriminate | intros [_ C]; discriminate C]).
  - split; [discriminate | intros [C _]; discriminate C].
Qed.

Lemma violation_set_SequencerStopped (b : bool) cfg n (st : Step) :
  violation (set_SequencerStopped b cfg) n st = violation cfg n st.
Proof. destruct st; reflexivity. Qed.

Lemma run_gate_ext cfg n cfg' n' (steps : list Step) :
  (forall st, In st steps -> violation cfg' n' st = violation cfg n st) ->
  run_gate cfg' n' steps = run_gate cfg n steps.
Proof.
  induction steps as [|st steps IH]; intros H; [reflexivity|].
  cbn [run_gate]. rewrite (H st (or_introl eq_refl)).
  rewrite IH by (intros st' Hin; apply H; right; exact Hin).
  reflexivity.
Qed.

(** X18. [Config.Check] does not look at Driver.SequencerStopped: its
    result is the same whatever the flag holds. *)
Theorem Config_Check_ignores_SequencerStopped (env : Env) (stopped : bool) :
  result_of (mk_Env (set_SequencerStopped stopped (env_cfg env))
                    (env_reads env) (env_trace env))
  = result_of env.
Proof.
  rewrite !result_of_eq. cbn [env_cfg env_reads]. unfold first_violation.
  apply (f_equal fst). apply run_gate_ext. intros st _.
  apply violation_set_SequencerStopped.
Qed.

(** X19. With coordination disabled, reconciling first does not change the
    verdict of the gate: [Config.Check] run after [Config.LoadPersisted]
    returns what it returns when run alone, whatever the store answered. *)
Theorem Config_Check_after_LoadPersisted (env : Env) :
  ConductorEnabled (env_cfg env) = false ->
  result_of (snd (Config_LoadPersisted env)) = result_of env.
Proof.
  intros Hce. rewrite !result_of_eq.
  destruct (LoadPersisted_cfg_reads env) as [Hcfg _].
  rewrite Hcfg.
  unfold first_violation. apply (f_equal fst). apply run_gate_ext. intros st _.
  rewrite violation_set_SequencerStopped.
  destruct st; try reflexivity.
  cbn. rewrite Hce. reflexivity.
Qed.

Lemma Config_Check_after_LoadPersisted_witness :
  let env := start (sample_cfg None 7300 None None true false true false
                      (const_store (StateStopped, None)) None) 0 in
  ConductorEnabled (env_cfg env) = false
  /\ SequencerStopped (Driver (env_cfg (snd (Config_LoadPersisted env)))) = true
  /\ result_of (snd (Config_LoadPersisted env)) = result_of env.
Proof.
  intros env. split; [reflexivity|]. split; [reflexivity|].
  exact (Config_Check_after_LoadPersisted env eq_refl).
Defined.

(** X20. A persisted state shuts coordination out: when sequencing and
    coordination are both enabled, the store answers started or stopped to
    two reads in a row, and the nine earlier checks hold, reconciliation
    succeeds and the gate run after it fails with the persistence error. *)
Theorem persisted_state_refuses_conductor (env : Env) (state : RunningState) :
  SequencerEnabled (Driver (env_cfg env)) = true ->
  ConductorEnabled (env_cfg env) = true ->
  next_answer env = (state, None) ->
  SequencerState (Persistence (env_cfg env)) (S (env_reads env)) = (state, None) ->
  state <> StateUnset ->
  passes_before (env_cfg env) (env_reads env) step_Conductor ->
  fst (Config_LoadPersisted env) = None
  /\ result_of (snd (Config_LoadPersisted env))
     = Some (fmt_Errorf
               "config persistence must be disabled when conductor is enabled" []).
Proof.
  intros Hse Hce Hans Hnext Hne Hpass.
  destruct (LoadPersisted_cfg_reads env) as [Hcfg Hreads].
  rewrite Hse in Hreads.
  split.
  - exact (LoadPersisted_succeeds env Hans).
  - apply result_of_stop with (st := step_Conductor).
    + rewrite Hcfg, Hreads. intros st' Hlt.
      rewrite violation_set_SequencerStopped.
      rewrite <- (Hpass st' Hlt).
      destruct st'; try reflexivity. cbn in Hlt. lia.
    + rewrite Hcfg, Hreads. rewrite violation_set_SequencerStopped.
      cbn. rewrite Hce, Hnext. cbn.
      destruct state; [contradiction|reflexivity|reflexivity].
Qed.

Lemma persisted_state_refuses_conductor_witness :
  let env := start (sample_cfg None 7300 None None true false false true
                      (const_store (StateStarted, None)) None) 0 in
  passes_before (env_cfg env) (env_reads env) step_Conductor
  /\ fst (Config_LoadPersisted env) = None
  /\ result_of (snd (Config_LoadPersisted env))
     = Some (fmt_Errorf
               "config persistence must be disabled when conductor is enabled" []).
Proof.
  intros env.
  assert (H : passes_before (env_cfg env) (env_reads env) step_Conductor)
    by passes_by_computation.
  split; [exact H|].
  apply (@persisted_state_refuses_conductor env StateStarted);
    try reflexivity; [discriminate | exact H].
Defined.

(* ------------------------------------------------------------------ *)
(** ** SoulGasToken: minting, burning and the native backing *)

Module SoulGasTokenFacts.
Import SoulGasToken.
Local Unset Implicit Arguments.

Example depositor_is_nonzero : depositor <> 0 /\ depositor < 2 ^ 160.
Proof. split; [discriminate | reflexivity]. Qed.

(** One user deposits 5, a burner withdraws 3 of them for itself. *)
Example deposit_then_withdraw :
  let s0 := set_burners (upd (fun _ => false) 77 true) (fresh true 1) in
  exists s1 s2,
    deposit (from 42 5) s0 = Ok s1
    /\ withdrawFrom 42 3 (from 77 0) s1 = Ok s2
    /\ _balances s2 42 = 2 /\ _totalSupply s2 = 2 /\ this_balance s2 = 2
    /\ sent s2 = [(77, 3)].
Proof. cbv zeta. eexists. eexists. repeat split. Qed.

Ltac split_ifs H :=
  repeat match type of H with
         | context [if ?c then _ else _] =>
             let E := fresh "E" in destruct c eqn:E; try discriminate H
         end.

(** [step] moves the balance of the account and the supply by [d] times the
    amount and leaves everything else. *)
Definition moves (d : Z) (step : address -> Z -> Storage -> outcome Storage)
  : Prop :=
  forall a v s s',
    step a v s = Ok s' ->
    s' = set_token (upd (_balances s) a (_balances s a + d * v))
                   (_totalSupply s + d * v) s.

Lemma _mint_moves : moves 1 _mint.
Proof.
  intros a v s s' H. unfold _mint in H. split_ifs H.
  injection H as <-. rewrite Z.mul_1_l. reflexivity.
Qed.

Lemma _burn_moves : moves (-1) _burn.
Proof.
  intros a v s s' H. unfold _burn in H. split_ifs H.
  injection H as <-. replace (-1 * v) with (- v) by lia. reflexivity.
Qed.

Lemma upd_eq {A} (m : address -> A) (k : address) (v : A) (a : address) :
  upd m k v a = if a =? k then v else m a.
Proof. reflexivity. Qed.

Lemma loop_each_moves d step accounts :
  moves d step ->
  forall values s s',
    List.length accounts = List.length values ->
    loop_each step accounts values s = Ok s' ->
    (forall x, _balances s' x
               = _balances s x + d * listed_for x accounts values)
    /\ _totalSupply s' = _totalSupply s + d * total values
    /\ s' = set_token (_balances s') (_totalSupply s') s.
Proof.
  intros Hstep.
  induction accounts as [|a accounts IH]; intros [|v values] s s' Hlen H;
    try discriminate Hlen.
  - injection H as <-. cbn. repeat split; try lia.
    destruct s; reflexivity.
  - cbn [loop_each] in H.
    destruct (step a v s) as [s1| |] eqn:E1; try discriminate H.
    cbn [and_then] in H.
    injection Hlen as Hlen.
    destruct (IH values s1 s' Hlen H) as [Hb [Ht Hrest]].
    pose proof (Hstep _ _ _ _ E1) as ->.
    cbn [_balances _totalSupply set_token] in *.
    repeat split.
    + intros x. rewrite Hb, upd_eq. cbn [listed_for].
      rewrite (Z.eqb_sym a x). destruct (x =? a) eqn:Ex.
      * apply Z.eqb_eq in Ex. subst x. lia.
      * lia.
    + rewrite Ht. cbn [total]. lia.
    + rewrite Hrest at 1. reflexivity.
Qed.

Lemma loop_total_each step accounts :
  forall values t s t' s',
    loop_total step accounts values t s = Ok (t', s') ->
    List.length accounts = List.length values ->
    loop_each step accounts values s = Ok s' /\ t' = t + total values.
Proof.
  induction accounts as [|a accounts IH]; intros [|v values] t s t' s' H Hlen;
    try discriminate Hlen.
  - injection H as <- <-. split; [reflexivity | cbn; lia].
  - cbn [loop_total loop_each] in *.
    destruct (step a v s) as [s1| |]; try discriminate H.
    cbn [and_then] in *.
    destruct (t + v >? uint256_max); [discriminate H|].
    injection Hlen as Hlen.
    destruct (IH _ _ _ _ _ H Hlen) as [He Ht].
    split; [exact He | cbn [total]; lia].
Qed.

Lemma same_length_eq accounts values :
  same_length accounts values = true ->
  List.length accounts = List.length values.
Proof. apply Nat.eqb_eq. Qed.



Lemma loop_each_single step a v s s' :
  step a v s = Ok s' -> loop_each step [a] [v] s = Ok s'.
Proof. intros H. cbn. rewrite H. reflexivity. Qed.

Lemma transfer_to_sender_ok msg v s s' :
  transfer_to_sender msg v s = Ok s' ->
  s' = set_native (this_balance s - v) (sent s ++ [(msg_sender msg, v)]) s
  /\ v <= this_balance s /\ sender_accepts msg = true.
Proof.
  unfold transfer_to_sender. intros H. split_ifs H. injection H as <-.
  split; [reflexivity|]. split.
  - apply Z.ltb_ge. assumption.
  - destruct (sender_accepts msg); [reflexivity|discriminate].
Qed.

Ltac open_call H :=
  cbn [exec] in H;
  unfold deposit, batchDepositFor, withdrawFrom, batchWithdrawFrom, batchMint,
    addMinters, delMinters, addBurners, delBurners, allowSgtValue,
    disallowSgtValue, burnFrom, batchBurnFrom, transfer, transferFrom, approve,
    nonpayable, onlyOwner, require in H;
  cbv zeta in H; split_ifs H.

(** What a returning call has done, field by field. *)
Record effect (c : Call) (msg : Msg) (s s' : Storage) : Prop := {
  eff_balances : forall x,
    _balances s' x
    = _balances s x
      + token_sign c * listed_for x (token_accounts c msg) (token_values c msg);
  eff_supply :
    _totalSupply s'
    = _totalSupply s + token_sign c * total (token_values c msg);
  eff_native : this_balance s' = this_balance s + msg_value msg - paid c;
  eff_sent : sent s' = sent s ++ payment c msg;
  eff_mode : IS_BACKED_BY_NATIVE s' = IS_BACKED_BY_NATIVE s;
  eff_depositor : DEPOSITOR_ACCOUNT s' = DEPOSITOR_ACCOUNT s;
  eff_owner : _owner s' = _owner s;
  eff_minters : _minters s' = minters_after c (_minters s);
  eff_burners : _burners s' = burners_after c (_burners s);
  eff_allow : _allow_sgt_value s' = allow_after c (_allow_sgt_value s)
}.

Lemma effect_of_loop c msg d step accounts values s0 s s' :
  moves d step ->
  List.length accounts = List.length values ->
  loop_each step accounts values s0 = Ok s' ->
  token_sign c = d -> token_accounts c msg = accounts ->
  token_values c msg = values ->
  s0 = set_native (this_balance s + msg_value msg) (sent s) s ->
  paid c = 0 -> payment c msg = [] ->
  (forall m, minters_after c m = m) -> (forall m, burners_after c m = m) ->
  (forall m, allow_after c m = m) ->
  effect c msg s s'.
Proof.
  intros Hm Hlen Hl Hd Ha Hv -> Hp Hpay Hmi Hbu Hal.
  destruct (loop_each_moves _ _ _ Hm _ _ _ Hlen Hl) as [Hb [Ht Hrest]].
  constructor; rewrite ?Hd, ?Ha, ?Hv, ?Hp, ?Hpay, ?app_nil_r, ?Hmi, ?Hbu, ?Hal.
  - intros x. rewrite Hb. reflexivity.
  - rewrite Ht. reflexivity.
  - rewrite Hrest. cbn. lia.
  - rewrite Hrest. reflexivity.
  - rewrite Hrest. reflexivity.
  - rewrite Hrest. reflexivity.
  - rewrite Hrest. reflexivity.
  - rewrite Hrest. reflexivity.
  - rewrite Hrest. reflexivity.
  - rewrite Hrest. reflexivity.
Qed.

Lemma receive_nothing msg s :
  msg_value msg = 0 ->
  s = set_native (this_balance s + msg_value msg) (sent s) s.
Proof. intros ->. rewrite Z.add_0_r. destruct s; reflexivity. Qed.

Lemma effect_of_withdraw c msg accounts values s s1 s' v :
  List.length accounts = List.length values ->
  loop_each _burn accounts values s = Ok s1 ->
  transfer_to_sender msg v s1 = Ok s' ->
  msg_value msg = 0 ->
  token_sign c = -1 -> token_accounts c msg = accounts ->
  token_values c msg = values ->
  paid c = v -> payment c msg = [(msg_sender msg, v)] ->
  (forall m, minters_after c m = m) -> (forall m, burners_after c m = m) ->
  (forall m, allow_after c m = m) ->
  effect c msg s s'.
Proof.
  intros Hlen Hl Ht H0 Hd Ha Hv Hp Hpay Hmi Hbu Hal.
  destruct (loop_each_moves _ _ _ _burn_moves _ _ _ Hlen Hl) as [Hb [Hs Hrest]].
  destruct (transfer_to_sender_ok _ _ _ _ Ht) as [-> _].
  constructor; rewrite ?Hd, ?Ha, ?Hv, ?Hp, ?Hpay, ?H0, ?Hmi, ?Hbu, ?Hal; cbn.
  - intros x. rewrite Hb. reflexivity.
  - rewrite Hs. reflexivity.
  - rewrite Hrest. cbn. lia.
  - rewrite Hrest. reflexivity.
  - rewrite Hrest. reflexivity.
  - rewrite Hrest. reflexivity.
  - rewrite Hrest. reflexivity.
  - rewrite Hrest. reflexivity.
  - rewrite Hrest. reflexivity.
  - rewrite Hrest. reflexivity.
Qed.

Lemma effect_of_admin c msg s s' :
  msg_value msg = 0 ->
  token_sign c = 0 -> paid c = 0 -> payment c msg = [] ->
  _balances s' = _balances s -> _totalSupply s' = _totalSupply s ->
  this_balance s' = this_balance s -> sent s' = sent s ->
  IS_BACKED_BY_NATIVE s' = IS_BACKED_BY_NATIVE s ->
  DEPOSITOR_ACCOUNT s' = DEPOSITOR_ACCOUNT s -> _owner s' = _owner s ->
  _minters s' = minters_after c (_minters s) ->
  _burners s' = burners_after c (_burners s) ->
  _allow_sgt_value s' = allow_after c (_allow_sgt_value s) ->
  effect c msg s s'.
Proof.
  intros H0 Hd Hp Hpay Hb Ht Hn Hs Hm Hdep Ho Hmi Hbu Hal.
  constructor; rewrite ?Hd, ?Hp, ?Hpay, ?H0, ?app_nil_r, ?Hb; try assumption; lia.
Qed.

Lemma exec_effect c msg s s' :
  exec c msg s = Ok s' -> effect c msg s s'.
Proof.
  intros H. destruct c; open_call H;
    try match goal with E : (msg_value msg =? 0) = true |- _ =>
      apply Z.eqb_eq in E end.
  - (* deposit *)
    apply loop_each_single in H.
    eapply (effect_of_loop call_deposit msg 1 _mint [msg_sender msg]
              [msg_value msg] _ s s' _mint_moves);
      try reflexivity.
    exact H.
  - (* batchDepositFor *)
    destruct (loop_total _mint accounts values 0 _) as [[t s1]| |] eqn:EL;
      try discriminate H.
    cbn [and_then] in H. split_ifs H. injection H as <-.
    apply same_length_eq in E.
    destruct (loop_total_each _ _ _ _ _ _ _ EL E) as [He _].
    eapply (effect_of_loop (call_batchDepositFor accounts values) msg
              _ _ _ _ _ _ _ _mint_moves E He); reflexivity.
  - (* withdrawFrom *)
    destruct (_burn account value s) as [s1| |] eqn:EB; try discriminate H.
    cbn [and_then] in H. apply loop_each_single in EB.
    apply (effect_of_withdraw (call_withdrawFrom account value) msg
             [account] [value] s s1 s' value);
      try reflexivity; assumption.
  - (* batchWithdrawFrom *)
    destruct (loop_total _burn accounts values 0 s) as [[t s1]| |] eqn:EL;
      try discriminate H.
    cbn [and_then] in H. apply same_length_eq in E0.
    destruct (loop_total_each _ _ _ _ _ _ _ EL E0) as [He Ht].
    cbn in Ht. subst t.
    apply (effect_of_withdraw (call_batchWithdrawFrom accounts values) msg
             accounts values s s1 s' (total values));
      try reflexivity; assumption.
  - (* batchMint *)
    apply same_length_eq in E0.
    apply (effect_of_loop (call_batchMint accounts values) msg
             1 _mint accounts values s s s' _mint_moves E0 H);
      try reflexivity. apply receive_nothing, E.
  - injection H as <-. apply effect_of_admin; try reflexivity; assumption.
  - injection H as <-. apply effect_of_admin; try reflexivity; assumption.
  - injection H as <-. apply effect_of_admin; try reflexivity; assumption.
  - injection H as <-. apply effect_of_admin; try reflexivity; assumption.
  - injection H as <-. apply effect_of_admin; try reflexivity; assumption.
  - injection H as <-. apply effect_of_admin; try reflexivity; assumption.
  - (* burnFrom *)
    apply loop_each_single in H.
    apply (effect_of_loop (call_burnFrom account value) msg (-1) _burn
             [account] [value] s s s' _burn_moves eq_refl H);
      try reflexivity. apply receive_nothing, E.
  - (* batchBurnFrom *)
    apply same_length_eq in E0.
    apply (effect_of_loop (call_batchBurnFrom accounts values) msg
             (-1) _burn accounts values s s s' _burn_moves E0 H);
      try reflexivity. apply receive_nothing, E.
Qed.


Lemma batchDepositFor_value accounts values msg s s' :
  batchDepositFor accounts values msg s = Ok s' ->
  msg_value msg = total values /\ IS_BACKED_BY_NATIVE s = true.
Proof.
  intros H. unfold batchDepositFor, require in H. cbv zeta in H. split_ifs H.
  destruct (loop_total _mint accounts values 0 _) as [[t s1]| |] eqn:EL;
    try discriminate H.
  cbn [and_then] in H. split_ifs H.
  apply same_length_eq in E.
  destruct (loop_total_each _ _ _ _ _ _ _ EL E) as [_ Ht].
  apply Z.eqb_eq in E1. split; [lia | exact E0].
Qed.












Lemma mark_listed flag l :
  forall m a, mark flag l m a = if listed a l then flag else m a.
Proof.
  induction l as [|x l IH]; intros m a; [reflexivity|].
  cbn [mark listed existsb]. rewrite IH. unfold listed, upd.
  destruct (existsb (Z.eqb a) l); [rewrite orb_true_r; reflexivity|].
  rewrite orb_false_r. reflexivity.
Qed.

(** X26. What the owner adds to the burners it can take off again: after
    [addBurners] of a list every listed address is a burner, after
    [delBurners] of the same list none is, and in both the addresses not
    listed are what they were; listing an address twice changes nothing. *)
Theorem burners_add_then_del (l : list address) msg s :
  msg_sender msg = _owner s ->
  msg_value msg = 0 ->
  exists s1 s2,
    addBurners l msg s = Ok s1
    /\ delBurners l msg s1 = Ok s2
    /\ (forall a, _burners s1 a = if listed a l then true else _burners s a)
    /\ (forall a, _burners s2 a = if listed a l then false else _burners s a).
Proof.
  intros Ho H0.
  unfold addBurners, delBurners, nonpayable, onlyOwner.
  rewrite H0. cbn [Z.eqb].
  rewrite Ho, Z.eqb_refl.
  eexists. eexists. split; [reflexivity|]. cbn [_owner set_burners].
  rewrite Z.eqb_refl. split; [reflexivity|].
  cbn [_burners set_burners]. split.
  - intros a. apply mark_listed.
  - intros a. rewrite !mark_listed. destruct (listed a l); reflexivity.
Qed.

Lemma burners_add_then_del_witness :
  let s0 := fresh false 1 in
  msg_sender (from 1 0) = _owner s0
  /\ exists s1 s2,
       addBurners [77; 78; 77] (from 1 0) s0 = Ok s1
       /\ delBurners [77; 78; 77] (from 1 0) s1 = Ok s2
       /\ _burners s1 78 = true /\ _burners s2 78 = false.
Proof.
  cbv zeta. split; [reflexivity|].
  destruct (burners_add_then_del [77; 78; 77] (from 1 0) (fresh false 1)
              eq_refl eq_refl) as [s1 [s2 [H1 [H2 [Ha Hd]]]]].
  exists s1, s2. split; [exact H1|]. split; [exact H2|].
  split; [rewrite Ha | rewrite Hd]; reflexivity.
Defined.

(** X27. A deposit can be taken out again in full: after a user's deposit
    of [v], a burner who takes plain transfers can withdraw [v] from that
    user; the balances, the supply and the contract's native balance are
    then what they were before the deposit, and the native token has gone to
    the burner, not to the user. *)
Theorem deposit_then_withdrawFrom (s s1 : Storage) (user burner : address)
    (v : Z) :
  valid s ->
  0 <= v ->
  deposit {| msg_sender := user; msg_value := v; sender_accepts := true |} s
    = Ok s1 ->
  _burners s burner = true ->
  exists s2,
    withdrawFrom user v
      {| msg_sender := burner; msg_value := 0; sender_accepts := true |} s1
      = Ok s2
    /\ (forall x, _balances s2 x = _balances s x)
    /\ _totalSupply s2 = _totalSupply s
    /\ this_balance s2 = this_balance s
    /\ sent s2 = sent s ++ [(burner, v)].
Proof.
  intros [Hbal [Hsup Hnat]] Hv Hd Hb.
  unfold deposit, require, _mint in Hd. cbv zeta in Hd.
  cbn [receive_value IS_BACKED_BY_NATIVE set_native msg_sender msg_value
       _totalSupply _balances] in Hd.
  split_ifs Hd. injection Hd as <-.
  unfold withdrawFrom, nonpayable, require, _burn, transfer_to_sender,
    receive_value.
  cbn [msg_value msg_sender sender_accepts IS_BACKED_BY_NATIVE _burners
       _balances _totalSupply this_balance sent set_token set_native
       and_then Z.eqb negb].
  rewrite E, Hb, E0. unfold upd at 1. rewrite Z.eqb_refl.
  pose proof (Hbal user) as Hu.
  destruct (Z.ltb_spec (_balances s user + v) v) as [C|_]; [lia|].
  destruct (Z.ltb_spec (_totalSupply s + v) v) as [C|_]; [lia|].
  cbn [and_then this_balance set_token set_native].
  destruct (Z.ltb_spec (this_balance s + v) v) as [C|_]; [lia|].
  eexists. split; [reflexivity|].
  cbn [_balances _totalSupply this_balance sent set_token set_native].
  split; [|split; [lia|split; [lia|reflexivity]]].
  intros x. unfold upd. rewrite Z.eqb_refl.
  destruct (x =? user) eqn:Ex; [|reflexivity].
  apply Z.eqb_eq in Ex. subst x. lia.
Qed.

Lemma deposit_then_withdrawFrom_witness :
  let s0 := with_burner 77 (fresh true 1) in
  exists s1 s2,
    deposit (from 42 5) s0 = Ok s1
    /\ withdrawFrom 42 5 (from 77 0) s1 = Ok s2
    /\ _balances s2 42 = 0 /\ sent s2 = [(77, 5)].
Proof.
  cbv zeta.
  destruct (deposit_then_withdrawFrom (with_burner 77 (fresh true 1))
              (set_token (upd (fun _ => 0) 42 5) 5
                 (set_native 5 [] (with_burner 77 (fresh true 1))))
              42 77 5
              (conj (fun _ => Z.le_refl 0) (conj (Z.le_refl 0) (Z.le_refl 0)))
              (Zle_0_pos 5) eq_refl eq_refl)
    as [s2 [Hw [Hbal [_ [_ Hsent]]]]].
  eexists. exists s2. split; [reflexivity|]. split; [exact Hw|].
  split; [rewrite Hbal; reflexivity | exact Hsent].
Defined.

(** X28. [batchDepositFor] returns only when the value sent is the total
    of the values listed; every account is then credited with the sum of the
    values listed for it, an account listed twice with both, and the supply
    and the contract's native balance grow by the total. *)
Theorem batchDepositFor_credits accounts values msg s s' :
  batchDepositFor accounts values msg s = Ok s' ->
  msg_value msg = total values
  /\ List.length accounts = List.length values
  /\ (forall x, _balances s' x = _balances s x + listed_for x accounts values)
  /\ _totalSupply s' = _totalSupply s + total values
  /\ this_balance s' = this_balance s + total values.
Proof.
  intros H.
  destruct (batchDepositFor_value _ _ _ _ _ H) as [Hv _].
  pose proof (exec_effect (call_batchDepositFor accounts values) msg s s' H)
    as [Hb Hs Hn _ _ _ _ _ _ _].
  cbn [token_sign token_accounts token_values call_values paid] in *.
  split; [exact Hv|]. split.
  - unfold batchDepositFor, require in H. cbv zeta in H.
    destruct (same_length accounts values) eqn:E; [|discriminate H].
    apply same_length_eq, E.
  - split; [intros x; rewrite Hb; lia|]. split; lia.
Qed.

Lemma batchDepositFor_credits_witness :
  let s0 := fresh true 1 in
  exists s1,
    batchDepositFor [42; 43; 42] [5; 7; 1] (from 9 13) s0 = Ok s1
    /\ _balances s1 42 = 6 /\ _totalSupply s1 = 13.
Proof.
  cbv zeta. eexists. split; [reflexivity|].
  match goal with
  | |- _balances ?s1 _ = _ /\ _ =>
      destruct (batchDepositFor_credits [42; 43; 42] [5; 7; 1] (from 9 13)
                  (fresh true 1) s1 eq_refl) as [_ [_ [Hb [Hs _]]]]
  end.
  split; [rewrite Hb | rewrite Hs]; reflexivity.
Defined.

End SoulGasTokenFacts.
